(** * The Elm test runner of vscode-elm-test-runner (src/runner.ts)

    A shallow embedding of the class [ElmTestRunner]: the suite tree that is
    built incrementally from the label paths of the streamed results, the
    buffer of pending diagnostic messages, the result index, the two run
    entry points, the handlers of the two external processes and the replay
    of a tree as test-explorer events. *)

From Stdlib Require Import ZArith Ascii.
From stdpp Require Import gmap strings list fin_maps.

Local Open Scope string_scope.
Local Open Scope list_scope.
Local Open Scope nat_scope.
Set Warnings "-register-all".

(** ** Data model *)

(** A decoded JSON value of the wire format. *)
Inductive JSON :=
| JNull
| JBool (b : bool)
| JNumber (n : Z)
| JString (s : string)
| JArray (items : list JSON)
| JObject (fields : list (string * JSON)).

(** Modelled from the spec: the structured comparison carried by a failure
    (result.ts is not among the sources). *)
Record Comparison := mkComparison {
  expected : JSON;
  actual : JSON;
  comparison : string
}.

(** Modelled from the spec: a failure detail record, with an optional human
    message and an optional structured comparison (result.ts is not among
    the sources). *)
Record Failure := mkFailure {
  message : option string;
  reason : option Comparison
}.

(** Modelled from the spec: the type [Result] of result.ts, which is not
    among the sources. runner.ts reads [event], [status] and [labels] and
    writes [messages]. *)
Record Result := mkResult {
  event : string;
  status : string;
  labels : list string;
  failures : list Failure;
  messages : list string
}.

(** [result.messages = ms] *)
Definition set_messages (result : Result) (ms : list string) : Result :=
  mkResult (event result) (status result) (labels result) (failures result) ms.

(** [TestSuiteInfo | TestInfo] of vscode-test-adapter-api, with the fields
    runner.ts sets. An absent optional field is [None]; [skipped] is [true]
    when the property is set. *)
Inductive TestNode :=
| Suite (id label : string) (description file : option string)
        (children : list TestNode)
| Test (id label : string) (description file : option string)
       (skipped : bool).

(** A [TestSuiteInfo] held in a variable or a field. *)
Record TestSuiteInfo := mkSuite {
  suite_id : string;
  suite_label : string;
  suite_description : option string;
  suite_file : option string;
  suite_children : list TestNode
}.

Definition node_of_suite (s : TestSuiteInfo) : TestNode :=
  Suite (suite_id s) (suite_label s) (suite_description s) (suite_file s)
        (suite_children s).

Definition node_id (n : TestNode) : string :=
  match n with Suite i _ _ _ _ => i | Test i _ _ _ _ => i end.

Definition node_label (n : TestNode) : string :=
  match n with Suite _ l _ _ _ => l | Test _ l _ _ _ => l end.

Definition node_file (n : TestNode) : option string :=
  match n with Suite _ _ _ f _ => f | Test _ _ _ f _ => f end.

Definition is_suite (n : TestNode) : bool :=
  match n with Suite _ _ _ _ _ => true | Test _ _ _ _ _ => false end.

(** [{ type: 'suite', id: 'root', label: 'root', children: [] }] *)
Definition root_suite : TestSuiteInfo := mkSuite "root" "root" None None [].

(** [suite.children.push(node)] *)
Definition push_child (suite : TestSuiteInfo) (node : TestNode) : TestSuiteInfo :=
  mkSuite (suite_id suite) (suite_label suite) (suite_description suite)
          (suite_file suite) (suite_children suite ++ [node]).

(** The child at index [i] of [suite] after it was mutated in place. *)
Definition set_child (suite : TestSuiteInfo) (i : nat) (node : TestNode)
  : TestSuiteInfo :=
  mkSuite (suite_id suite) (suite_label suite) (suite_description suite)
          (suite_file suite) (<[i := node]> (suite_children suite)).

(** [s.replace('.', '/')]: a string pattern replaces the first occurrence
    only. *)
Fixpoint replace_first_dot (s : string) : string :=
  match s with
  | EmptyString => EmptyString
  | String a s' =>
      if Ascii.eqb a "."%char then String "/"%char s'
      else String a (replace_first_dot s')
  end.

(** What the claim about the file path describes: every dot becomes a
    separator. *)
Fixpoint replace_all_dots (s : string) : string :=
  match s with
  | EmptyString => EmptyString
  | String a s' =>
      String (if Ascii.eqb a "."%char then "/"%char else a) (replace_all_dots s')
  end.

(** References to the suite objects on the heap: [loadedSuite] and
    [loadingSuite] hold references, and the close handler makes the two
    fields point to one object. *)
Abbreviation ref := nat.

Section Runner.

(** [this.folder.uri.fsPath], fixed by the constructor. *)
Variable fsPath : string.

(** [getFilePath]; [None] stands for the TypeError of [module.replace] when
    [result.labels] is empty. *)
Definition getFilePath (result : Result) : option string :=
  match labels result with
  | [] => None
  | module :: _ =>
      let file := replace_first_dot module in
      Some (fsPath +:+ "/tests/" +:+ file +:+ ".elm")
  end.

(** [addResult_]. The result is the suite after the mutation and the
    returned id. [None] stands for an exception: with no label left the
    source calls [getFilePath] on an empty [result.labels] (TypeError) or
    recurses without end (RangeError). The index found by [list_find] locates
    the child that the source mutates in place. *)
Fixpoint addResult_ (suite : TestSuiteInfo) (labels : list string)
    (result : Result) : option (TestSuiteInfo * string) :=
  match labels with
  | [] => None
  | [label0] =>
      file ← getFilePath result;
      let testInfo :=
        Test (suite_id suite +:+ "/" +:+ label0) label0 (Some label0)
             (Some file) (String.eqb (status result) "todo") in
      Some (push_child suite testInfo, node_id testInfo)
  | label :: labels =>
      match list_find (λ child, node_label child = label)
                      (suite_children suite) with
      | Some (i, Suite fid flabel fdescription ffile fchildren) =>
          '(found, id) ← addResult_
              (mkSuite fid flabel fdescription ffile fchildren) labels result;
          Some (set_child suite i (node_of_suite found), id)
      | _ =>
          file ← getFilePath result;
          let newSuite :=
            mkSuite (suite_id suite +:+ "/" +:+ label) label (Some label)
                    (Some file) [] in
          '(newSuite, id) ← addResult_ newSuite labels result;
          Some (push_child suite (node_of_suite newSuite), id)
      end
  end.

(** [addResult] *)
Definition addResult (suite : TestSuiteInfo) (result : Result)
  : option (TestSuiteInfo * string) :=
  let labels := [] ++ labels result in
  addResult_ suite labels result.

(** *** The runner object *)

(** What [parseTestResult] hands to [parse]: a string, a result object, or
    a falsy value that is not a string ([accept] guards against it). *)
Inductive ParseOutput :=
| OutLine (line : string)
| OutResult (result : Result)
| OutNull.

(** Modelled from the spec: [parseTestResult] and [buildMessage] of
    result.ts, which is not among the sources. The runner only calls them;
    [buildMessage] never throws, also for the missing result that
    [fireEvents] passes on. *)
Variable parseTestResult : string → ParseOutput.
Variable buildMessage : option Result → string.

(** [Buffer.prototype.toString] of Node, which the listener of ['data']
    calls on every chunk: the bytes of the chunk decoded as UTF-8, each
    chunk on its own, so the bytes of a character that the end of a chunk
    cuts decode to replacement characters. *)
Variable toString : string → string.

(** The fields of [ElmTestRunner], with the heap of suite objects. The
    callbacks [resolve] and [reject] appear as the effects of the handlers
    that call them. *)
Record ElmTestRunner := mkRunner {
  loadedSuite : option ref;
  resultById : gmap string Result;
  loadingSuite : option ref;
  pendingMessages : list string;
  heap : gmap ref TestSuiteInfo
}.

(** The runner right after its constructor. *)
Definition new_runner : ElmTestRunner := mkRunner None ∅ None [] ∅.

(** [TestLoadFinishedEvent] *)
Record TestLoadFinishedEvent := mkFinished {
  finished_type : string;
  finished_suite : option ref
}.

(** What a method or handler does to the outside. *)
Inductive Effect :=
| ExecuteTask (files : option (list string))
| RunElmTestWithReport
| Resolve (value : TestLoadFinishedEvent)
| Reject (reason : string)
| UncaughtTypeError.

(** [new vscode.Task(kind, folder, 'Run Elm Test', 'Elm Test Run', ...)] *)
Definition task_name : string := "Run Elm Test".

Definition newline : string := String (ascii_of_nat 10) EmptyString.
Definition dquote : string := String (ascii_of_nat 34) EmptyString.

(** [runAllTests]: the executor of the promise. *)
Definition runAllTests (this : ElmTestRunner) : ElmTestRunner * list Effect :=
  let l := fresh (dom (heap this)) in
  (mkRunner None (resultById this) (Some l) []
            (<[l := root_suite]> (heap this)),
   [ExecuteTask None]).

(** [runSomeTests] *)
Definition runSomeTests (this : ElmTestRunner) (files : list string)
  : ElmTestRunner * list Effect :=
  let l := fresh (dom (heap this)) in
  (mkRunner (loadedSuite this) (resultById this) (Some l) []
            (<[l := root_suite]> (heap this)),
   [ExecuteTask (Some files)]).

(** The listener that [runElmTests] registers with [onDidEndTaskProcess];
    [same_task] is [task === event.execution.task] and [exitCode] is
    [event.exitCode], a number or undefined. *)
Definition onDidEndTaskProcess (same_task : bool) (exitCode : option Z)
  : list Effect :=
  if same_task then
    if bool_decide (exitCode ≠ Some 1%Z) then [RunElmTestWithReport]
    else
      [Reject (String.concat newline
                 ["elm-test failed.";
                  "Check for Elm errors,";
                  "find details in the " +:+ dquote +:+ "Task - "
                    +:+ task_name +:+ dquote +:+ " terminal."])]
  else [].

(** The listener of ['close'] in [runElmTestWithReport]. *)
Definition onClose (this : ElmTestRunner) : ElmTestRunner * list Effect :=
  let this :=
    match loadedSuite this with
    | None =>
        mkRunner (loadingSuite this) (resultById this) (loadingSuite this)
                 (pendingMessages this) (heap this)
    | Some _ => this
    end in
  (this, [Resolve (mkFinished "finished" (loadedSuite this))]).

(** [pushMessage]: the empty string is the one falsy string. *)
Definition pushMessage (this : ElmTestRunner) (message : string)
  : ElmTestRunner :=
  if bool_decide (message = "") then this
  else mkRunner (loadedSuite this) (resultById this) (loadingSuite this)
                (pendingMessages this ++ [message]) (heap this).

(** [popMessages] *)
Definition popMessages (this : ElmTestRunner)
  : list string * ElmTestRunner :=
  let result := pendingMessages this in
  (result,
   mkRunner (loadedSuite this) (resultById this) (loadingSuite this) []
            (heap this)).

(** [accept]; [result] is [None] for a falsy argument. [None] as outcome
    stands for an exception ([this.loadingSuite!] undefined, or one from
    [addResult]). *)
Definition accept (this : ElmTestRunner) (result : option Result)
  : option ElmTestRunner :=
  match result with
  | None => Some this
  | Some result =>
      if bool_decide (event result = "testCompleted") then
        let '(ms, this) := popMessages this in
        let result := set_messages result ms in
        l ← loadingSuite this;
        suite ← heap this !! l;
        '(suite, id) ← addResult suite result;
        Some (mkRunner (loadedSuite this) (<[id := result]> (resultById this))
                       (loadingSuite this) (pendingMessages this)
                       (<[l := suite]> (heap this)))
      else if bool_decide (event result = "runStart") then Some this
      else if bool_decide (event result = "runComplete") then Some this
      else Some this
  end.

(** The body of the [forEach] in [parse]. *)
Definition dispatch (this : ElmTestRunner) (result : ParseOutput)
  : option ElmTestRunner :=
  match result with
  | OutLine message => Some (pushMessage this message)
  | OutResult result => accept this (Some result)
  | OutNull => accept this None
  end.

(** [forEach] over the parsed lines, stopping at an exception. *)
Fixpoint dispatch_all (this : ElmTestRunner) (results : list ParseOutput)
  : option ElmTestRunner :=
  match results with
  | [] => Some this
  | result :: results =>
      this ← dispatch this result;
      dispatch_all this results
  end.

(** [parse] *)
Definition parse (this : ElmTestRunner) (lines : list string)
  : option ElmTestRunner :=
  dispatch_all this (map parseTestResult lines).

(** [s.split('\n')]: one more piece than there are newlines. *)
Fixpoint split_lines (s : string) : list string :=
  match s with
  | EmptyString => [EmptyString]
  | String a s' =>
      if Ascii.eqb a (ascii_of_nat 10) then EmptyString :: split_lines s'
      else
        match split_lines s' with
        | [] => [String a EmptyString]
        | line :: lines => String a line :: lines
        end
  end.

(** The runner that [accept] leaves behind when it throws. Its exceptions
    are the TypeErrors of [addResult], which it calls behind
    [result.messages = this.popMessages()]: on [suite] when
    [this.loadingSuite] is undefined, and on [module.replace] in
    [getFilePath] when the record has no label; both come in front of the
    first [push]. So the buffer is drained and nothing else has changed. *)
Definition accept_thrown (this : ElmTestRunner) : ElmTestRunner :=
  (popMessages this).2.

(** [lines.forEach(line => this.parse([line]))]: an exception of [parse]
    leaves the [forEach], so the lines behind it in the chunk are not
    parsed, and goes uncaught; the runner stays as [accept] left it. *)
Fixpoint parse_each (this : ElmTestRunner) (lines : list string)
  : ElmTestRunner * list Effect :=
  match lines with
  | [] => (this, [])
  | line :: lines =>
      match parse this [line] with
      | Some this => parse_each this lines
      | None => (accept_thrown this, [UncaughtTypeError])
      end
  end.

(** The listener of ['data'] on the standard output of the report run; the
    chunk is the sequence of its bytes. An exception ends the listener, not
    the run: the next chunk and the close are handled as ever. *)
Definition onStdoutData (this : ElmTestRunner) (data : string)
  : ElmTestRunner * list Effect :=
  let lines := split_lines (toString data) in
  parse_each this lines.

(** *** Replaying a tree as events *)

(** [TestSuiteEvent] and [TestEvent]; the running marker of a test carries
    no message. *)
Inductive Event :=
| TestSuiteEvent (suite state : string)
| TestEvent (test state : string) (message : option string).

(** [fireEvents]; [testStatesEmitter.fire] appends to the emitter's log. The
    [switch] is on [result?.status], which is undefined without a result
    and then takes the default case. *)
Fixpoint fireEvents (this : ElmTestRunner) (node : TestNode)
    (testStatesEmitter : list Event) : list Event * bool :=
  match node with
  | Suite id _ _ _ children =>
      let testStatesEmitter :=
        testStatesEmitter ++ [TestSuiteEvent id "running"] in
      let testStatesEmitter :=
        foldl (λ emitter child, (fireEvents this child emitter).1)
              testStatesEmitter children in
      let testStatesEmitter :=
        testStatesEmitter ++ [TestSuiteEvent id "completed"] in
      (testStatesEmitter, true)
  | Test id _ _ _ _ =>
      let testStatesEmitter :=
        testStatesEmitter ++ [TestEvent id "running" None] in
      let result := resultById this !! id in
      let message := buildMessage result in
      let testStatesEmitter :=
        match status <$> result with
        | Some s =>
            if String.eqb s "pass" then
              testStatesEmitter ++ [TestEvent id "passed" (Some message)]
            else if String.eqb s "todo" then
              testStatesEmitter ++ [TestEvent id "skipped" (Some message)]
            else
              testStatesEmitter ++ [TestEvent id "failed" (Some message)]
        | None =>
            testStatesEmitter ++ [TestEvent id "failed" (Some message)]
        end in
      (testStatesEmitter, true)
  end.

(** *** The runner as a state machine *)

(** What can happen to a runner: a call of one of the two entry points, or
    one of the events its listeners are registered for. *)
Inductive Action :=
| RunAllTests
| RunSomeTests (files : list string)
| EndTaskProcess (same_task : bool) (exitCode : option Z)
| StdoutData (data : string)
| Close.

Definition step (this : ElmTestRunner) (a : Action)
  : ElmTestRunner * list Effect :=
  match a with
  | RunAllTests => runAllTests this
  | RunSomeTests files => runSomeTests this files
  | EndTaskProcess same_task exitCode =>
      (this, onDidEndTaskProcess same_task exitCode)
  | StdoutData data => onStdoutData this data
  | Close => onClose this
  end.

Fixpoint run (this : ElmTestRunner) (actions : list Action)
  : ElmTestRunner * list Effect :=
  match actions with
  | [] => (this, [])
  | a :: actions =>
      let '(this, effects) := step this a in
      let '(this, effects') := run this actions in
      (this, effects ++ effects')
  end.

End Runner.

(** ** Observations on trees, used to state the properties *)

(** The labels from the root down to a node, joined with [/] behind the
    root id. *)
Definition path_id (path : list string) : string :=
  String.concat "/" ("root" :: path).

(** Every node below has the id of its label path; [ancestors] are the labels
    above [n], the root excluded. *)
Fixpoint ids_on_path (ancestors : list string) (n : TestNode) : bool :=
  match n with
  | Suite id label _ _ children =>
      String.eqb id (path_id (ancestors ++ [label]))
      && forallb (ids_on_path (ancestors ++ [label])) children
  | Test id label _ _ _ => String.eqb id (path_id (ancestors ++ [label]))
  end.

(** Every node below has the id [parent.id + '/' + label]. *)
Fixpoint ids_under (parent_id : string) (n : TestNode) : bool :=
  match n with
  | Suite id label _ _ children =>
      String.eqb id (parent_id +:+ "/" +:+ label)
      && forallb (ids_under id) children
  | Test id label _ _ _ => String.eqb id (parent_id +:+ "/" +:+ label)
  end.

(** The ids of a whole tree. *)
Definition tree_ids_ok (suite : TestSuiteInfo) : bool :=
  String.eqb (suite_id suite) "root"
  && forallb (ids_on_path []) (suite_children suite)
  && forallb (ids_under (suite_id suite)) (suite_children suite).

(** The [Test] leaves of a node, depth first. *)
Fixpoint tests_of (n : TestNode) : list TestNode :=
  match n with
  | Suite _ _ _ _ children => concat (map tests_of children)
  | Test _ _ _ _ _ => [n]
  end.

(** The number of [Suite] nodes of a node. *)
Fixpoint suite_count (n : TestNode) : nat :=
  match n with
  | Suite _ _ _ _ children => S (sum_list_with suite_count children)
  | Test _ _ _ _ _ => 0
  end.

(** The children that are a [Suite] labelled [label]. *)
Definition suites_labelled (label : string) (children : list TestNode)
  : list TestNode :=
  filter (λ n, is_suite n ∧ node_label n = label) children.


(** Along [path], as far as the tree reaches, no [Test] carries the label of
    a level in front of the suites with that label, and no level holds two
    suites with its label. *)
Fixpoint unshadowed (children : list TestNode) (path : list string) : bool :=
  match path with
  | [] => true
  | label :: path =>
      match list_find (λ child, node_label child = label) children with
      | None => true
      | Some (_, Suite _ _ _ _ below) =>
          bool_decide (length (suites_labelled label children) = 1)
          && unshadowed below path
      | Some (_, Test _ _ _ _ _) => false
      end
  end.

(** The child that [find] reaches is no suite. *)
Definition no_suite_found (l : string) (suite : TestSuiteInfo) : Prop :=
  match list_find (λ child, node_label child = l) (suite_children suite) with
  | Some (_, Suite _ _ _ _ _) => False
  | _ => True
  end.

(** The number of dots of a module label. *)
Fixpoint dots (s : string) : nat :=
  match s with
  | EmptyString => 0
  | String a s' => (if Ascii.eqb a "."%char then 1 else 0) + dots s'
  end.

(** Inserting results one after the other, as [accept] does over a run. *)
Fixpoint insert_all (fsPath : string) (suite : TestSuiteInfo)
    (results : list Result) : option TestSuiteInfo :=
  match results with
  | [] => Some suite
  | result :: results =>
      '(suite, _) ← addResult fsPath suite result;
      insert_all fsPath suite results
  end.

(** [needle] occurs in [s]. *)
Definition contains (s needle : string) : Prop :=
  ∃ before after, s = before +:+ needle +:+ after.

(** ** The line parser *)

Section Parser.

(** Modelled from the spec: the structured decode of a line as JSON, which
    result.ts delegates to a library; [None] when the decode fails. *)
Variable decode : string → option JSON.

Definition field (name : string) (json : JSON) : option JSON :=
  match json with
  | JObject fields =>
      snd <$> (snd <$> list_find (λ kv : string * JSON, kv.1 = name) fields)
  | _ => None
  end.

Definition as_string (json : JSON) : option string :=
  match json with JString s => Some s | _ => None end.

Definition as_strings (json : JSON) : option (list string) :=
  match json with JArray items => mapM as_string items | _ => None end.

(** The [event] field, when it is there and a string. *)
Definition event_of (json : JSON) : option string :=
  field "event" json ≫= as_string.

(** [pass], [fail] or [todo]; anything else counts as [fail]. *)
Definition status_of (json : JSON) : string :=
  match field "status" json ≫= as_string with
  | Some s =>
      if String.eqb s "pass" then "pass"
      else if String.eqb s "todo" then "todo" else "fail"
  | None => "fail"
  end.

Definition comparison_of (json : JSON) : option Comparison :=
  data ← field "data" json;
  e ← field "expected" data;
  a ← field "actual" data;
  c ← field "comparison" data ≫= as_string;
  Some (mkComparison e a c).

Definition failure_of (json : JSON) : Failure :=
  mkFailure (field "message" json ≫= as_string)
            (field "reason" json ≫= comparison_of).

(** The failures; the empty sequence when the field is absent. *)
Definition failures_of (json : JSON) : list Failure :=
  match field "failures" json with
  | Some (JArray items) => map failure_of items
  | _ => []
  end.

(** Modelled from the spec: [parseTestResult] of result.ts, which is not
    among the sources (the spec's [parseLine]). A line that does not decode,
    or whose [event] is missing or not recognised, comes back as it is; so
    does a [testCompleted] record without a list of at least one label. *)
Definition parseLine (line : string) : ParseOutput :=
  match decode line with
  | None => OutLine line
  | Some json =>
      match event_of json with
      | Some e =>
          if String.eqb e "testCompleted" then
            match field "labels" json ≫= as_strings with
            | Some (l :: ls) =>
                OutResult (mkResult "testCompleted" (status_of json) (l :: ls)
                                    (failures_of json) [])
            | _ => OutLine line
            end
          else if String.eqb e "runStart" then
            OutResult (mkResult "runStart" "" [] [] [])
          else if String.eqb e "runComplete" then
            OutResult (mkResult "runComplete" "" [] [] [])
          else OutLine line
      | None => OutLine line
      end
  end.

End Parser.

(** ** Observations on runs, used to state the properties *)

(** The output is a [testCompleted] record. *)
Definition is_completed (o : ParseOutput) : bool :=
  match o with
  | OutResult r => bool_decide (event r = "testCompleted")
  | _ => false
  end.

(** The strings among the outputs that [pushMessage] buffers, in order. *)
Definition buffered (outputs : list ParseOutput) : list string :=
  omap (λ o, match o with
             | OutLine s => if bool_decide (s = "") then None else Some s
             | _ => None
             end) outputs.

(** [accept] finds a loading tree, and no [testCompleted] record comes
    without labels: nothing throws. *)
Definition has_loading_tree (this : ElmTestRunner) : Prop :=
  ∃ l suite, loadingSuite this = Some l ∧ heap this !! l = Some suite.

Definition labelled (o : ParseOutput) : Prop :=
  match o with
  | OutResult r => event r = "testCompleted" → labels r ≠ []
  | _ => True
  end.

(** The loading tree is rooted at [root] with every id on its path. *)
Definition loading_tree_ok (this : ElmTestRunner) : Prop :=
  ∃ l suite, loadingSuite this = Some l ∧ heap this !! l = Some suite
             ∧ tree_ids_ok suite = true.

(** No buffered message and no message of an indexed result is empty. *)
Definition no_empty_message (this : ElmTestRunner) : Prop :=
  ("" ∉ pendingMessages this)
  ∧ (∀ id r, resultById this !! id = Some r → "" ∉ messages r).

(** The events that [fireEvents] fires for a node. *)
Definition fired (buildMessage : option Result → string)
    (this : ElmTestRunner) (node : TestNode) : list Event :=
  (fireEvents buildMessage this node []).1.

(** The runner with another buffer of pending messages. *)
Definition with_pending (this : ElmTestRunner) (ms : list string)
  : ElmTestRunner :=
  mkRunner (loadedSuite this) (resultById this) (loadingSuite this) ms
           (heap this).

(** The events of the report run: they leave the two tree fields alone. *)
Definition streaming (a : Action) : Prop :=
  match a with
  | EndTaskProcess _ _ | StdoutData _ => True
  | _ => False
  end.

(** ** Locating tests in their files *)

(** The [TestEvent] with a line that [fireLineEvents] fires. *)
Record TestLineEvent := mkLineEvent {
  line_test : string;
  line_line : nat
}.

(** An offset that passes [filter(([offset, id]) => offset)]: undefined and
    0 are falsy. *)
Definition truthy_offset (offset : option nat) : bool :=
  match offset with
  | Some (S _) => true
  | _ => false
  end.

(** [counts.reduce((a, b) => a + b)]: without an initial value, the reduce
    of an empty array throws a TypeError. *)
Definition reduce_sum (counts : list nat) : option nat :=
  match counts with
  | [] => None
  | count :: counts => Some (foldl Nat.add count counts)
  end.

Section LineEvents.

(** Modelled from the spec: [getTestInfosByFile] and [findOffsetForTest] of
    util.ts, which is not among the sources: the entries of the map from a
    file to its test nodes, in the order of the map, and the offset of the
    test with the given names in a text, when it is found. The names are
    [None] when no result is indexed for the node ([names!]). *)
Variable getTestInfosByFile : TestSuiteInfo → list (string * list TestNode).
Variable findOffsetForTest : option (list string) → string → option nat.

(** [vscode.workspace.openTextDocument] with [doc.getText()], [None] when
    the promise rejects, and [doc.positionAt(offset).line] for the document
    with a text. *)
Variable openTextDocument : string → option string.
Variable positionAt : string → nat → nat.

(** The first [then] of a file: the events for the nodes whose offset is
    truthy. *)
Definition lineEvents (this : ElmTestRunner) (text : string)
    (nodes : list TestNode) : list TestLineEvent :=
  let located :=
    map (λ node,
           let id := node_id node in
           let result := resultById this !! id in
           let names := (λ r, drop 1 (labels r)) <$> result in
           (findOffsetForTest names text, id)) nodes in
  let found :=
    filter (λ p : option nat * string, truthy_offset p.1) located in
  map (λ p : option nat * string,
         mkLineEvent p.2 (positionAt text (default 0 p.1))) found.

(** [fireLineEvents]: for every file in the order of the map the events its
    second [then] fires ([None] when the document does not open), and the
    value of the promise, [None] when it rejects. The documents open
    concurrently, so the emitter sees the events of the files in an order
    the source does not fix. *)
Definition fireLineEvents (this : ElmTestRunner) (suite : TestSuiteInfo)
  : list (option (list TestLineEvent)) * option nat :=
  let testInfosByFile := getTestInfosByFile suite in
  let fired :=
    map (λ entry : string * list TestNode,
           text ← openTextDocument entry.1;
           Some (lineEvents this text entry.2)) testInfosByFile in
  (fired, mapM (fmap (M:=option) length) fired ≫= reduce_sum).

End LineEvents.

(** ** Further observations *)

(** The ids of the tests for which the events hold a terminal marker (a
    test event with a message), in the order of the events. *)
Definition terminal_ids (events : list Event) : list string :=
  omap (λ e, match e with
             | TestEvent id _ (Some _) => Some id
             | _ => None
             end) events.

(** The suites whose running marker and whose completed marker the events
    hold, in the order of the events. *)
Definition suite_markers (state : string) (events : list Event)
  : list string :=
  omap (λ e, match e with
             | TestSuiteEvent id st =>
                 if String.eqb st state then Some id else None
             | _ => None
             end) events.

(** The ids of the suites of a node, depth first, a suite before the suites
    below it ([preorder]) or behind them ([postorder]). *)
Fixpoint suites_preorder (n : TestNode) : list string :=
  match n with
  | Suite id _ _ _ children => id :: concat (map suites_preorder children)
  | Test _ _ _ _ _ => []
  end.

Fixpoint suites_postorder (n : TestNode) : list string :=
  match n with
  | Suite id _ _ _ children => concat (map suites_postorder children) ++ [id]
  | Test _ _ _ _ _ => []
  end.

(** The path of the file of a module label, as [getFilePath] builds it. *)
Definition module_file (fsPath module : string) : string :=
  fsPath +:+ "/tests/" +:+ replace_first_dot module +:+ ".elm".

(** Every node of [n] carries the file [file]. *)
Fixpoint files_are (file : option string) (n : TestNode) : bool :=
  match n with
  | Suite _ _ _ f children =>
      bool_decide (f = file) && forallb (files_are file) children
  | Test _ _ _ f _ => bool_decide (f = file)
  end.

(** Every node below the root carries the file of the module label at the
    top of its path. *)
Definition tree_files_ok (fsPath : string) (suite : TestSuiteInfo) : bool :=
  forallb (λ n, files_are (Some (module_file fsPath (node_label n))) n)
          (suite_children suite).

(** What holds of a runner along its runs: the two tree fields point into
    the heap; every tree on the heap is rooted at [root] with every id on
    its path, and each of its leaves has an indexed result; every indexed
    result is a [testCompleted] record, indexed under the id of its label
    path. *)
Definition runner_ok (this : ElmTestRunner) : Prop :=
  (∀ l, loadedSuite this = Some l → is_Some (heap this !! l))
  ∧ (∀ l, loadingSuite this = Some l → is_Some (heap this !! l))
  ∧ (∀ l suite, heap this !! l = Some suite →
       tree_ids_ok suite = true
       ∧ ∀ n, n ∈ tests_of (node_of_suite suite) →
              is_Some (resultById this !! node_id n))
  ∧ (∀ id r, resultById this !! id = Some r →
       event r = "testCompleted" ∧ labels r ≠ []
       ∧ id = path_id (labels r)).

(** ** Sample data *)

(** A stand-in decoder for the instances below: the words of a line are a
    status and the labels, or the one word [runStart] or [runComplete]. *)
Definition sample_decode (line : string) : option JSON :=
  match String.words line with
  | [] => None
  | [w] =>
      if String.eqb w "runStart" || String.eqb w "runComplete"
      then Some (JObject [("event", JString w)])
      else None
  | w :: ws =>
      if String.eqb w "pass" || String.eqb w "fail" || String.eqb w "todo"
      then Some (JObject [("event", JString "testCompleted");
                          ("status", JString w);
                          ("labels", JArray (map JString ws))])
      else None
  end.

Definition sample_parse : string → ParseOutput := parseLine sample_decode.

(** A stand-in for [toString] in the instances below, whose chunks are
    ASCII text: such a chunk decodes to itself. *)
Definition sample_toString (data : string) : string := data.

(** A [testCompleted] record as the parser hands it over. *)
Definition completed (status : string) (labels : list string) : Result :=
  mkResult "testCompleted" status labels [] [].

(** The tree after [["M"; "a"]], [["M"; "a"; "b"]] and [["M"; "a"; "c"]]
    were inserted into the root suite of the folder [/ws]. *)
Definition shadowed_tree : TestSuiteInfo :=
  mkSuite "root" "root" None None
    [Suite "root/M" "M" (Some "M") (Some "/ws/tests/M.elm")
       [Test "root/M/a" "a" (Some "a") (Some "/ws/tests/M.elm") false;
        Suite "root/M/a" "a" (Some "a") (Some "/ws/tests/M.elm")
          [Test "root/M/a/b" "b" (Some "b") (Some "/ws/tests/M.elm") false];
        Suite "root/M/a" "a" (Some "a") (Some "/ws/tests/M.elm")
          [Test "root/M/a/c" "c" (Some "c") (Some "/ws/tests/M.elm") false]]].

(** A runner whose first full run indexed the test [a] of module [M]. *)
Definition indexed_runner : ElmTestRunner :=
  mkRunner (Some 0)
    {["root/M/a" := completed "pass" ["M"; "a"]]}
    (Some 0) []
    {[0 := mkSuite "root" "root" None None
             [Suite "root/M" "M" (Some "M") (Some "/ws/tests/M.elm")
                [Test "root/M/a" "a" (Some "a") (Some "/ws/tests/M.elm")
                   false]]]}.

(** A full run that indexes the test [a] of module [M], and the start of a
    second full run. *)
Definition two_full_runs : list Action :=
  [RunAllTests; EndTaskProcess true (Some 0%Z); StdoutData "pass M a"; Close;
   RunAllTests].

(** A decoder for a line with an event that is not recognised. *)
Definition other_decode (line : string) : option JSON :=
  Some (JObject [("event", JString "testStarted")]).

(** The loaded tree of [indexed_runner]. *)
Definition indexed_tree : TestSuiteInfo :=
  mkSuite "root" "root" None None
    [Suite "root/M" "M" (Some "M") (Some "/ws/tests/M.elm")
       [Test "root/M/a" "a" (Some "a") (Some "/ws/tests/M.elm") false]].

(** Stand-ins for the helpers of [fireLineEvents]: one file with the leaves
    of the tree, when it has any, every test at offset 7 of the text, and
    the offset as the line. *)
Definition sample_infos (suite : TestSuiteInfo)
  : list (string * list TestNode) :=
  match tests_of (node_of_suite suite) with
  | [] => []
  | tests => [("/ws/tests/M.elm", tests)]
  end.

Definition sample_offset (names : option (list string)) (text : string)
  : option nat := Some 7.

Definition sample_open (file : string) : option string := Some "module M".

Definition sample_position (text : string) (offset : nat) : nat := offset.

(** ** Properties *)

Section Properties.

Variable fsPath : string.

(** *** Strings *)

Lemma append_cons (x : ascii) (a b : string) :
  String x a +:+ b = String x (a +:+ b).
Proof. done. Qed.

Lemma append_assoc (a b c : string) : (a +:+ b) +:+ c = a +:+ b +:+ c.
Proof. induction a as [|x a IH]; [done |]. by rewrite !append_cons, IH. Qed.

Lemma concat_snoc (sep : string) (ls : list string) (l : string) :
  ls ≠ [] →
  String.concat sep (ls ++ [l]) = String.concat sep ls +:+ sep +:+ l.
Proof.
  induction ls as [|x ls IH]; [done | intros _].
  destruct ls as [|y ls]; [done |].
  change (String.concat sep ((x :: y :: ls) ++ [l]))
    with (x +:+ sep +:+ String.concat sep ((y :: ls) ++ [l])).
  rewrite IH by done.
  change (String.concat sep (x :: y :: ls))
    with (x +:+ sep +:+ String.concat sep (y :: ls)).
  by rewrite !append_assoc.
Qed.

Lemma path_id_snoc (path : list string) (l : string) :
  path_id (path ++ [l]) = path_id path +:+ "/" +:+ l.
Proof. unfold path_id. by rewrite app_comm_cons, concat_snoc. Qed.

Lemma path_id_cons (l : string) (path : list string) :
  path_id (l :: path) = "root/" +:+ String.concat "/" (l :: path).
Proof. done. Qed.

(** *** Inserting a result into a tree *)

Lemma addResult__nil suite r : addResult_ fsPath suite [] r = None.
Proof. done. Qed.

Lemma addResult__one suite l r :
  addResult_ fsPath suite [l] r =
  file ← getFilePath fsPath r;
  Some (push_child suite
          (Test (suite_id suite +:+ "/" +:+ l) l (Some l) (Some file)
                (String.eqb (status r) "todo")),
        suite_id suite +:+ "/" +:+ l).
Proof. done. Qed.

Lemma addResult__found suite l l' ls r i fid flabel fdescription ffile fchildren :
  list_find (λ child, node_label child = l) (suite_children suite)
    = Some (i, Suite fid flabel fdescription ffile fchildren) →
  addResult_ fsPath suite (l :: l' :: ls) r =
  '(found, id) ← addResult_ fsPath
      (mkSuite fid flabel fdescription ffile fchildren) (l' :: ls) r;
  Some (set_child suite i (node_of_suite found), id).
Proof. intros Hfind. simpl. by rewrite Hfind. Qed.

Lemma addResult__new suite l l' ls r :
  (∀ i fid flabel fdescription ffile fchildren,
     list_find (λ child, node_label child = l) (suite_children suite)
       ≠ Some (i, Suite fid flabel fdescription ffile fchildren)) →
  addResult_ fsPath suite (l :: l' :: ls) r =
  file ← getFilePath fsPath r;
  '(newSuite, id) ← addResult_ fsPath
      (mkSuite (suite_id suite +:+ "/" +:+ l) l (Some l) (Some file) [])
      (l' :: ls) r;
  Some (push_child suite (node_of_suite newSuite), id).
Proof.
  intros Hfind. simpl.
  destruct (list_find _ _) as [[i [fid fl fd ff fch|]]|] eqn:E; try done.
  by destruct (Hfind i fid fl fd ff fch).
Qed.

(** A call that returns although [find] reached no suite: it built the path
    of the file, pushed a new suite and returned from the call on it. *)
Ltac new_suite_call Hadd Hfind :=
  rewrite addResult__new in Hadd by (intros; rewrite Hfind; congruence);
  let file := fresh "file" in
  let Hfile := fresh "Hfile" in
  destruct (getFilePath _ _) as [file|] eqn:Hfile; [|done];
  cbn -[addResult_] in Hadd;
  let newSuite := fresh "newSuite" in
  let id := fresh "id" in
  let Hrec := fresh "Hrec" in
  destruct (addResult_ _ _ (_ :: _) _) as [[newSuite id]|] eqn:Hrec; [|done];
  cbn -[addResult_] in Hadd; injection Hadd as <- <-.

(** Induction along the calls of [addResult_] that return. *)
Lemma addResult__ind (r : Result)
    (P : TestSuiteInfo → list string → TestSuiteInfo → string → Prop) :
  (∀ suite l file,
     getFilePath fsPath r = Some file →
     P suite [l]
       (push_child suite
          (Test (suite_id suite +:+ "/" +:+ l) l (Some l) (Some file)
                (String.eqb (status r) "todo")))
       (suite_id suite +:+ "/" +:+ l)) →
  (∀ suite l l' ls i fid fl fd ff fch found id,
     list_find (λ child, node_label child = l) (suite_children suite)
       = Some (i, Suite fid fl fd ff fch) →
     addResult_ fsPath (mkSuite fid fl fd ff fch) (l' :: ls) r
       = Some (found, id) →
     P (mkSuite fid fl fd ff fch) (l' :: ls) found id →
     P suite (l :: l' :: ls) (set_child suite i (node_of_suite found)) id) →
  (∀ suite l l' ls file newSuite id,
     no_suite_found l suite →
     getFilePath fsPath r = Some file →
     addResult_ fsPath
       (mkSuite (suite_id suite +:+ "/" +:+ l) l (Some l) (Some file) [])
       (l' :: ls) r = Some (newSuite, id) →
     P (mkSuite (suite_id suite +:+ "/" +:+ l) l (Some l) (Some file) [])
       (l' :: ls) newSuite id →
     P suite (l :: l' :: ls) (push_child suite (node_of_suite newSuite)) id) →
  ∀ ls suite suite' id,
    addResult_ fsPath suite ls r = Some (suite', id) →
    P suite ls suite' id.
Proof.
  intros Hone Hfound Hnew ls.
  induction ls as [|l ls IH]; intros suite suite' id Hadd; [done |].
  destruct ls as [|l' ls].
  - rewrite addResult__one in Hadd.
    destruct (getFilePath fsPath r) as [file|] eqn:Hfile; [|done].
    simpl in Hadd. injection Hadd as <- <-. by apply Hone.
  - destruct (list_find (λ child, node_label child = l) (suite_children suite))
      as [[i [fid fl fd ff fch|tid tl td tf ts]]|] eqn:Hfind.
    + rewrite (addResult__found _ _ _ _ _ _ _ _ _ _ _ Hfind) in Hadd.
      destruct (addResult_ fsPath _ (l' :: ls) r) as [[found id']|] eqn:Hrec;
        [|done].
      simpl in Hadd. injection Hadd as <- <-.
      eapply Hfound; eauto.
    + new_suite_call Hadd Hfind.
      eapply Hnew; eauto. unfold no_suite_found. by rewrite Hfind.
    + new_suite_call Hadd Hfind.
      eapply Hnew; eauto. unfold no_suite_found. by rewrite Hfind.
Qed.

(** [addResult_] returns whenever there is a label left and the result has
    a module label. *)
Lemma addResult__total (r : Result) (ls : list string) :
  ls ≠ [] → labels r ≠ [] →
  ∀ suite, is_Some (addResult_ fsPath suite ls r).
Proof.
  intros Hne Hr.
  assert (∃ file, getFilePath fsPath r = Some file) as [file Hfile].
  { unfold getFilePath. destruct (labels r); [done | eauto]. }
  induction ls as [|l ls IH]; [done |]. intros suite.
  destruct ls as [|l' ls].
  - rewrite addResult__one, Hfile. simpl. eauto.
  - destruct (list_find (λ child, node_label child = l) (suite_children suite))
      as [[i [fid fl fd ff fch|tid tl td tf ts]]|] eqn:Hfind.
    1: { rewrite (addResult__found _ _ _ _ _ _ _ _ _ _ _ Hfind).
         destruct (IH ltac:(done) (mkSuite fid fl fd ff fch))
           as [[found id] ->].
         simpl. eauto. }
    all: rewrite addResult__new by (intros; rewrite Hfind; congruence).
    all: rewrite Hfile; cbn -[addResult_].
    all: destruct (IH ltac:(done)
                     (mkSuite (suite_id suite +:+ "/" +:+ l) l (Some l)
                              (Some file) [])) as [[found id] ->].
    all: simpl; eauto.
Qed.

(** The fields of the suite itself stay as they are. *)
Lemma addResult__fields (r : Result) ls suite suite' id :
  addResult_ fsPath suite ls r = Some (suite', id) →
  suite_id suite' = suite_id suite ∧ suite_label suite' = suite_label suite
  ∧ suite_description suite' = suite_description suite
  ∧ suite_file suite' = suite_file suite.
Proof.
  revert ls suite suite' id. apply addResult__ind; intros; by simpl.
Qed.

(** *** Lists *)

Lemma forallb_lookup {A} (f : A → bool) (l : list A) i x :
  forallb f l = true → l !! i = Some x → f x = true.
Proof.
  revert i. induction l as [|y l IH]; intros [|i] Hall Hi; simplify_eq/=;
    apply andb_prop in Hall as [??]; eauto.
Qed.

Lemma forallb_insert {A} (f : A → bool) (l : list A) i x :
  forallb f l = true → f x = true → forallb f (<[i:=x]> l) = true.
Proof.
  revert i. induction l as [|y l IH]; intros [|i] Hall Hx; simpl in *; try done;
    apply andb_prop in Hall as [??]; apply andb_true_intro; eauto.
Qed.

Lemma forallb_snoc {A} (f : A → bool) (l : list A) x :
  forallb f l = true → f x = true → forallb f (l ++ [x]) = true.
Proof. intros Hl Hx. rewrite forallb_app, Hl. simpl. by rewrite Hx. Qed.


Lemma tests_insert (l : list TestNode) i x y t :
  l !! i = Some x →
  tests_of y ≡ₚ tests_of x ++ [t] →
  concat (map tests_of (<[i:=y]> l)) ≡ₚ concat (map tests_of l) ++ [t].
Proof.
  revert i. induction l as [|z l IH]; intros [|i] Hi Hy; simplify_eq/=.
  - rewrite Hy. by rewrite <- !(assoc_L (++)), (comm (++) [t]).
  - by rewrite (IH _ Hi Hy), (assoc_L (++)).
Qed.

(** *** Node ids *)

(** Inserting a result keeps the ids on their paths and returns the id of
    the path of the labels. *)
Lemma addResult__ids (r : Result) ls suite suite' id :
  addResult_ fsPath suite ls r = Some (suite', id) →
  ∀ ancestors,
    suite_id suite = path_id ancestors →
    forallb (ids_on_path ancestors) (suite_children suite) = true →
    forallb (ids_under (suite_id suite)) (suite_children suite) = true →
    forallb (ids_on_path ancestors) (suite_children suite') = true
    ∧ forallb (ids_under (suite_id suite)) (suite_children suite') = true
    ∧ id = path_id (ancestors ++ ls).
Proof.
  revert ls suite suite' id.
  apply (addResult__ind r (λ suite ls suite' id, ∀ ancestors,
    suite_id suite = path_id ancestors →
    forallb (ids_on_path ancestors) (suite_children suite) = true →
    forallb (ids_under (suite_id suite)) (suite_children suite) = true →
    forallb (ids_on_path ancestors) (suite_children suite') = true
    ∧ forallb (ids_under (suite_id suite)) (suite_children suite') = true
    ∧ id = path_id (ancestors ++ ls))).
  - intros suite l file _ anc Hid Hpath Hunder. simpl.
    split_and!.
    + apply forallb_snoc; [done |]. simpl.
      apply String.eqb_eq. by rewrite path_id_snoc, Hid.
    + apply forallb_snoc; [done |]. simpl. by apply String.eqb_eq.
    + by rewrite path_id_snoc, Hid.
  - intros suite l l' ls i fid fl fd ff fch found id Hfind Hadd IH
      anc Hid Hpath Hunder.
    apply list_find_Some in Hfind as (Hi & Hl & _). simpl in Hl. subst fl.
    pose proof (forallb_lookup _ _ _ _ Hpath Hi) as Hp.
    pose proof (forallb_lookup _ _ _ _ Hunder Hi) as Hu.
    simpl in Hp, Hu.
    apply andb_prop in Hp as [Hp1 Hp2]. apply andb_prop in Hu as [Hu1 Hu2].
    apply String.eqb_eq in Hp1.
    destruct (addResult__fields _ _ _ _ _ Hadd) as (Hf1 & Hf2 & Hf3 & Hf4).
    simpl in Hf1, Hf2.
    destruct (IH (anc ++ [l]) Hp1 Hp2 Hu2) as (IH1 & IH2 & ->).
    simpl in IH2. simpl. split_and!.
    + apply forallb_insert; [done |]. simpl. rewrite Hf1, Hf2.
      apply andb_true_intro. split; [by apply String.eqb_eq | done].
    + apply forallb_insert; [done |]. simpl. rewrite Hf1, Hf2.
      apply andb_true_intro. split; [done | done].
    + by rewrite <- (assoc_L (++)).
  - intros suite l l' ls file newSuite id _ _ Hadd IH anc Hid Hpath Hunder.
    destruct (addResult__fields _ _ _ _ _ Hadd) as (Hf1 & Hf2 & Hf3 & Hf4).
    simpl in Hf1, Hf2.
    assert (suite_id suite +:+ "/" +:+ l = path_id (anc ++ [l])) as Hnew
      by (by rewrite path_id_snoc, Hid).
    destruct (IH (anc ++ [l]) Hnew eq_refl eq_refl) as (IH1 & IH2 & ->).
    simpl in IH2. simpl. split_and!.
    + apply forallb_snoc; [done |]. simpl. rewrite Hf1, Hf2.
      apply andb_true_intro. split; [by apply String.eqb_eq | done].
    + apply forallb_snoc; [done |]. simpl. rewrite Hf1, Hf2.
      apply andb_true_intro. split; [by apply String.eqb_eq | done].
    + by rewrite <- (assoc_L (++)).
Qed.

(** Inserting a result adds one [Test] leaf, with the returned id and the
    last label, and leaves the other leaves as they are. *)
Lemma addResult__tests (r : Result) ls suite suite' id :
  addResult_ fsPath suite ls r = Some (suite', id) →
  ∃ l file,
    last ls = Some l ∧ getFilePath fsPath r = Some file
    ∧ tests_of (node_of_suite suite')
        ≡ₚ tests_of (node_of_suite suite)
           ++ [Test id l (Some l) (Some file) (String.eqb (status r) "todo")].
Proof.
  revert ls suite suite' id.
  apply (addResult__ind r (λ suite ls suite' id, ∃ l file,
    last ls = Some l ∧ getFilePath fsPath r = Some file
    ∧ tests_of (node_of_suite suite')
        ≡ₚ tests_of (node_of_suite suite)
           ++ [Test id l (Some l) (Some file)
                 (String.eqb (status r) "todo")])).
  - intros suite l file Hfile. exists l, file. split_and!; [done.. |].
    simpl. by rewrite map_app, concat_app; simpl.
  - intros suite l l' ls i fid fl fd ff fch found id Hfind Hadd
      (l0 & file & Hlast & Hfile & IH).
    exists l0, file. split_and!; [done.. |].
    apply list_find_Some in Hfind as (Hi & _ & _).
    simpl. eapply tests_insert; [exact Hi | exact IH].
  - intros suite l l' ls file newSuite id _ Hfile Hadd
      (l0 & file' & Hlast & Hfile' & IH).
    exists l0, file'. split_and!; [done.. |].
    simpl. rewrite map_app, concat_app. simpl.
    simpl in IH. by rewrite IH, app_nil_r.
Qed.

(** *** Suites shared by label paths *)









Lemma addResult_total (r : Result) suite :
  labels r ≠ [] → is_Some (addResult fsPath suite r).
Proof. intros Hr. unfold addResult. simpl. by apply addResult__total. Qed.



(** Every path is unshadowed in the fresh root suite. *)
Lemma unshadowed_root path : unshadowed (suite_children root_suite) path = true.
Proof. by destruct path. Qed.

Lemma addResult_ids_ok (r : Result) tree tree' id :
  tree_ids_ok tree = true →
  addResult fsPath tree r = Some (tree', id) →
  tree_ids_ok tree' = true ∧ id = path_id (labels r).
Proof.
  unfold tree_ids_ok, addResult. simpl.
  intros [[Hroot Hpath]%andb_prop Hunder]%andb_prop Hadd.
  apply String.eqb_eq in Hroot.
  destruct (addResult__fields _ _ _ _ _ Hadd) as (Hid & _).
  destruct (addResult__ids _ _ _ _ _ Hadd [] Hroot Hpath Hunder)
    as (H1 & H2 & H3).
  rewrite Hid, H1, H2, Hroot. by split.
Qed.

Lemma insert_all_ids_ok (results : list Result) :
  Forall (λ r, labels r ≠ []) results →
  ∀ tree, tree_ids_ok tree = true →
    ∃ tree', insert_all fsPath tree results = Some tree'
             ∧ tree_ids_ok tree' = true.
Proof.
  induction 1 as [|r results Hr _ IH]; intros tree Hok; [by exists tree |].
  destruct (addResult_total r tree Hr) as [[t1 id1] Ht1].
  destruct (addResult_ids_ok _ _ _ _ Hok Ht1) as [Hok1 _].
  destruct (IH t1 Hok1) as (tree' & Hall & Hok').
  exists tree'. simpl. rewrite Ht1. by simpl.
Qed.

(** C4. In a tree built by inserting results into the fresh root suite, and
    in the tree after one more insertion, every node has the id of its label
    path: the labels from below the root down to the node, joined with [/]
    behind the root id [root], which is the id of its parent, [/] and its own
    label. [addResult] returns the id of the label path of the result, and
    that is the id of the one [Test] leaf the insertion adds, labelled with
    the last label; the other leaves stay as they are. *)
Theorem node_ids_are_label_paths (results : list Result) (result : Result) :
  Forall (λ r, labels r ≠ []) results → labels result ≠ [] →
  ∃ tree tree' id label file,
    insert_all fsPath root_suite results = Some tree
    ∧ addResult fsPath tree result = Some (tree', id)
    ∧ tree_ids_ok tree = true ∧ tree_ids_ok tree' = true
    ∧ id = path_id (labels result)
    ∧ last (labels result) = Some label
    ∧ tests_of (node_of_suite tree')
        ≡ₚ tests_of (node_of_suite tree)
           ++ [Test id label (Some label) (Some file)
                 (String.eqb (status result) "todo")].
Proof.
  intros Hrs Hr.
  destruct (insert_all_ids_ok results Hrs root_suite eq_refl)
    as (tree & Hall & Hok).
  destruct (addResult_total result tree Hr) as [[tree' id] Hadd].
  destruct (addResult_ids_ok _ _ _ _ Hok Hadd) as [Hok' Hid].
  destruct (addResult__tests _ _ _ _ _ Hadd) as (l & file & Hlast & _ & Ht).
  exists tree, tree', id, l, file. by split_and!.
Qed.

(** A module label with at most one dot is mapped with every dot
    replaced. *)
Lemma replace_first_dot_single (s : string) :
  dots s ≤ 1 → replace_first_dot s = replace_all_dots s.
Proof.
  assert (∀ t, dots t = 0 → replace_all_dots t = t) as Hnone.
  { induction t as [|a t IH]; [done |]. simpl.
    destruct (Ascii.eqb a "."); [done |]. intros Ht. by rewrite IH. }
  induction s as [|a s IH]; [done |]. simpl.
  destruct (Ascii.eqb a "."); simpl; intros Hs.
  - by rewrite Hnone by lia.
  - by rewrite IH.
Qed.

(** C8, at the module label [A.B.C]: [getFilePath] replaces the first dot
    only, so the path is not the one with every dot replaced. *)
Theorem getFilePath_replaces_first_dot_only :
  getFilePath "/ws" (completed "pass" ["A.B.C"; "t"])
    = Some "/ws/tests/A/B.C.elm"
  ∧ getFilePath "/ws" (completed "pass" ["A.B.C"; "t"])
    ≠ Some ("/ws" +:+ "/tests/" +:+ replace_all_dots "A.B.C" +:+ ".elm")
  ∧ replace_all_dots "A.B.C" = "A/B/C".
Proof. by split_and!. Qed.

(** *** More on inserting results *)

Lemma addResult_labelled (r : Result) suite suite' id :
  addResult fsPath suite r = Some (suite', id) → labels r ≠ [].
Proof.
  unfold addResult. simpl. intros Hadd Hnil. by rewrite Hnil in Hadd.
Qed.

Lemma getFilePath_module (r : Result) m rest :
  labels r = m :: rest → getFilePath fsPath r = Some (module_file fsPath m).
Proof. intros Hr. unfold getFilePath. by rewrite Hr. Qed.

Lemma insert_all_leaf_ids (rs : list Result) :
  ∀ tree tree',
    tree_ids_ok tree = true →
    insert_all fsPath tree rs = Some tree' →
    map node_id (tests_of (node_of_suite tree'))
      ≡ₚ map node_id (tests_of (node_of_suite tree))
         ++ map (λ r, path_id (labels r)) rs.
Proof.
  induction rs as [|r rs IH]; intros tree tree' Hok Hall; simpl in Hall.
  { simplify_eq. by rewrite app_nil_r. }
  destruct (addResult fsPath tree r) as [[t1 id1]|] eqn:Hadd; [|done].
  simpl in Hall.
  destruct (addResult_ids_ok _ _ _ _ Hok Hadd) as [Hok1 ->].
  destruct (addResult__tests _ _ _ _ _ Hadd) as (l & file & _ & _ & Ht).
  rewrite (IH _ _ Hok1 Hall), Ht, map_app. simpl.
  by rewrite <- (assoc_L (++)).
Qed.

(** X1. The leaves of a tree built from the root are the inserted results: one
    [Test] leaf per result, a result that repeats a label path included, each
    with the id of the label path of its result; and the insertions throw
    exactly when a result has no label. *)
Theorem leaves_are_the_results (rs : list Result) :
  (is_Some (insert_all fsPath root_suite rs)
   ↔ Forall (λ r, labels r ≠ []) rs)
  ∧ (∀ tree,
       insert_all fsPath root_suite rs = Some tree →
       map node_id (tests_of (node_of_suite tree))
         ≡ₚ map (λ r, path_id (labels r)) rs).
Proof.
  split.
  - split.
    + intros [tree Hall]. revert Hall. generalize root_suite.
      induction rs as [|r rs IH]; intros t Hall; [constructor |].
      simpl in Hall.
      destruct (addResult fsPath t r) as [[t1 id1]|] eqn:Hadd; [|done].
      constructor; [by eapply addResult_labelled | by eapply IH].
    + intros Hrs.
      destruct (insert_all_ids_ok rs Hrs root_suite eq_refl) as (tree & -> & _).
      by eexists.
  - intros tree Hall. by apply (insert_all_leaf_ids rs root_suite tree).
Qed.

Lemma tests_insert_sublist (l : list TestNode) i x y :
  l !! i = Some x →
  tests_of x `sublist_of` tests_of y →
  concat (map tests_of l) `sublist_of` concat (map tests_of (<[i:=y]> l)).
Proof.
  revert i. induction l as [|z l IH]; intros [|i] Hi Hy; simplify_eq/=.
  - by apply sublist_app.
  - apply sublist_app; [done | by eapply IH].
Qed.

(** X2. An insertion keeps the leaves of the tree in their depth-first order:
    the leaves from before are a subsequence of the leaves after it. *)
Theorem addResult_keeps_leaf_order (r : Result) suite suite' id :
  addResult fsPath suite r = Some (suite', id) →
  tests_of (node_of_suite suite) `sublist_of` tests_of (node_of_suite suite').
Proof.
  unfold addResult. simpl. generalize (labels r) at 1. intros ls.
  revert ls suite suite' id.
  apply (addResult__ind r (λ suite ls suite' id,
    tests_of (node_of_suite suite)
      `sublist_of` tests_of (node_of_suite suite'))).
  - intros suite l file _. simpl. rewrite map_app, concat_app.
    by apply sublist_inserts_r.
  - intros suite l l' ls i fid fl fd ff fch found id Hfind _ IH.
    apply list_find_Some in Hfind as (Hi & _ & _). simpl.
    by eapply tests_insert_sublist.
  - intros suite l l' ls file newSuite id _ _ _ _. simpl.
    rewrite map_app, concat_app. by apply sublist_inserts_r.
Qed.

(** Below a suite whose nodes carry the file of the result, the nodes carry
    it after the insertion too. *)
Lemma addResult__files (r : Result) (f : string) ls suite suite' id :
  getFilePath fsPath r = Some f →
  addResult_ fsPath suite ls r = Some (suite', id) →
  forallb (files_are (Some f)) (suite_children suite) = true →
  forallb (files_are (Some f)) (suite_children suite') = true.
Proof.
  intros Hf. revert ls suite suite' id.
  apply (addResult__ind r (λ suite ls suite' id,
    forallb (files_are (Some f)) (suite_children suite) = true →
    forallb (files_are (Some f)) (suite_children suite') = true)).
  - intros suite l file Hfile Hall. simpl. apply forallb_snoc; [done |].
    simpl. apply bool_decide_eq_true. congruence.
  - intros suite l l' ls i fid fl fd ff fch found id Hfind Hadd IH Hall.
    apply list_find_Some in Hfind as (Hi & _ & _).
    pose proof (forallb_lookup _ _ _ _ Hall Hi) as Hchild. simpl in Hchild.
    apply andb_prop in Hchild as [Hff Hfch].
    destruct (addResult__fields _ _ _ _ _ Hadd) as (_ & _ & _ & Hfile).
    simpl in Hfile. simpl. apply forallb_insert; [done |]. simpl.
    rewrite Hfile, Hff. simpl. by apply IH.
  - intros suite l l' ls file newSuite id _ Hfile Hadd IH Hall.
    destruct (addResult__fields _ _ _ _ _ Hadd) as (_ & _ & _ & Hfile').
    simpl in Hfile'. simpl. apply forallb_snoc; [done |]. simpl.
    rewrite Hfile'. apply andb_true_intro. split.
    + apply bool_decide_eq_true. congruence.
    + by apply IH.
Qed.

Lemma addResult_files_ok (r : Result) tree tree' id :
  tree_files_ok fsPath tree = true →
  addResult fsPath tree r = Some (tree', id) →
  tree_files_ok fsPath tree' = true.
Proof.
  unfold tree_files_ok, addResult. simpl. intros Hok Hadd.
  destruct (labels r) as [|m [|l' ls]] eqn:Hr; [done | |].
  - rewrite addResult__one, (getFilePath_module _ _ _ Hr) in Hadd.
    simpl in Hadd. simplify_eq. simpl. apply forallb_snoc; [done |].
    simpl. by apply bool_decide_eq_true.
  - destruct (list_find (λ child, node_label child = m) (suite_children tree))
      as [[i [fid fl fd ff fch|tid tl td tf ts]]|] eqn:Hfind.
    1: { pose proof (getFilePath_module _ _ _ Hr) as Hfile.
         rewrite (addResult__found _ _ _ _ _ _ _ _ _ _ _ Hfind) in Hadd.
         destruct (addResult_ fsPath _ (l' :: ls) r) as [[found id']|] eqn:Hrec;
           [|done].
         cbn -[addResult_] in Hadd. injection Hadd as <- <-.
         apply list_find_Some in Hfind as (Hi & Hl & _). simpl in Hl.
         pose proof (forallb_lookup _ _ _ _ Hok Hi) as Hchild.
         simpl in Hchild. rewrite Hl in Hchild.
         apply andb_prop in Hchild as [Hff Hfch].
         destruct (addResult__fields _ _ _ _ _ Hrec) as (_ & Hlab & _ & Hfl).
         simpl in Hlab, Hfl. simpl. apply forallb_insert; [done |]. simpl.
         rewrite Hlab, Hfl, Hl, Hff. simpl.
         by apply (addResult__files r _ _ _ _ _ Hfile Hrec). }
    all: new_suite_call Hadd Hfind.
    all: pose proof (getFilePath_module _ _ _ Hr) as Hm.
    all: rewrite Hfile in Hm; injection Hm as ->.
    all: destruct (addResult__fields _ _ _ _ _ Hrec) as (_ & Hlab & _ & Hfl).
    all: simpl in Hlab, Hfl; simpl; apply forallb_snoc; [done |]; simpl.
    all: rewrite Hlab, Hfl; apply andb_true_intro; split;
      [apply bool_decide_eq_true; congruence |].
    all: apply (addResult__files r _ _ _ _ _ Hfile Hrec); done.
Qed.

(** X3. In a tree built from the root, every node carries the file of the
    module label at the top of its path: the workspace folder, [/tests/],
    the label with its first dot replaced, and [.elm]. *)
Theorem files_follow_module_label (rs : list Result) tree :
  insert_all fsPath root_suite rs = Some tree →
  tree_files_ok fsPath tree = true.
Proof.
  assert (∀ t, tree_files_ok fsPath t = true →
               insert_all fsPath t rs = Some tree →
               tree_files_ok fsPath tree = true) as Hgen.
  { induction rs as [|r rs IH]; intros t Hok Hall; simpl in Hall.
    - by simplify_eq.
    - destruct (addResult fsPath t r) as [[t1 id1]|] eqn:Hadd; [|done].
      simpl in Hall. eapply IH; [|exact Hall].
      by eapply addResult_files_ok. }
  by apply Hgen.
Qed.

Lemma replace_first_dot_at (a b : string) :
  dots a = 0 → replace_first_dot (a +:+ "." +:+ b) = a +:+ "/" +:+ b.
Proof.
  induction a as [|c a IH]; [done |]. rewrite !(append_cons c a). simpl.
  destruct (Ascii.eqb c "."); [done |]. intros Ha. by rewrite IH.
Qed.

Lemma replace_first_dot_none (a : string) :
  dots a = 0 → replace_first_dot a = a.
Proof.
  induction a as [|c a IH]; [done |]. simpl.
  destruct (Ascii.eqb c "."); [done |]. intros Ha. by rewrite IH.
Qed.

(** X4. [getFilePath] replaces exactly the first dot of the module label: the
    text in front of it and all of the text behind it, further dots
    included, stay as they are; a label without a dot is taken as it is. *)
Theorem getFilePath_first_dot (r : Result) (a b : string) rest :
  dots a = 0 →
  (labels r = (a +:+ "." +:+ b) :: rest →
     getFilePath fsPath r
       = Some (fsPath +:+ "/tests/" +:+ (a +:+ "/" +:+ b) +:+ ".elm"))
  ∧ (labels r = a :: rest →
       getFilePath fsPath r = Some (fsPath +:+ "/tests/" +:+ a +:+ ".elm")).
Proof.
  intros Ha. split; intros Hr.
  - rewrite (getFilePath_module _ _ _ Hr). unfold module_file.
    by rewrite replace_first_dot_at.
  - rewrite (getFilePath_module _ _ _ Hr). unfold module_file.
    by rewrite replace_first_dot_none.
Qed.

(** *** The build phase *)

(** C5. When the process of the build task ends with exit code 1, the
    listener calls [reject] with a message that contains [elm-test failed.]
    and does nothing else: no report run is started, and the runner with its
    trees is as before. With every other exit code, an undefined one
    included, it starts the report run. *)
Theorem build_exit_code_contract (exitCode : option Z) :
  (exitCode = Some 1%Z →
     ∃ reason, onDidEndTaskProcess true exitCode = [Reject reason]
               ∧ contains reason "elm-test failed.")
  ∧ (exitCode ≠ Some 1%Z →
       onDidEndTaskProcess true exitCode = [RunElmTestWithReport])
  ∧ (∀ parseTestResult toString this,
       step fsPath parseTestResult toString this
         (EndTaskProcess true exitCode)
         = (this, onDidEndTaskProcess true exitCode)).
Proof.
  split_and!.
  - intros ->. eexists. split; [reflexivity |].
    exists "", (newline +:+ "Check for Elm errors," +:+ newline
                +:+ "find details in the " +:+ dquote +:+ "Task - "
                +:+ task_name +:+ dquote +:+ " terminal.").
    reflexivity.
  - intros Hne. unfold onDidEndTaskProcess. by rewrite bool_decide_eq_true_2.
  - done.
Qed.

(** *** Replaying a tree *)

Section Replay.

Variable buildMessage : option Result → string.

(** Induction on a tree, with the property for every child of a suite. *)
Lemma TestNode_forall_ind (P : TestNode → Prop) :
  (∀ id label description file children,
     Forall P children → P (Suite id label description file children)) →
  (∀ id label description file skipped,
     P (Test id label description file skipped)) →
  ∀ n, P n.
Proof.
  intros Hsuite Htest. fix IH 1.
  intros [id label description file children|id label description file skipped];
    [apply Hsuite | apply Htest].
  induction children as [|c children IHc]; constructor; [apply IH | exact IHc].
Qed.

Lemma fire_children this (children : list TestNode) :
  Forall (λ c, ∀ emitter,
            fireEvents buildMessage this c emitter
              = (emitter ++ fired buildMessage this c, true)) children →
  ∀ emitter,
    foldl (λ emitter child, (fireEvents buildMessage this child emitter).1)
          emitter children
      = emitter ++ concat (map (fired buildMessage this) children).
Proof.
  induction 1 as [|c children Hc _ IH]; intros emitter; simpl.
  - by rewrite app_nil_r.
  - by rewrite Hc, IH, (assoc_L (++)).
Qed.

Lemma fireEvents_appends this node :
  ∀ emitter,
    fireEvents buildMessage this node emitter
      = (emitter ++ fired buildMessage this node, true).
Proof.
  induction node as [id label description file children IH
                    |id label description file skipped]
    using TestNode_forall_ind; intros emitter.
  - unfold fired. simpl. rewrite !(fire_children _ _ IH). simpl.
    by rewrite <- !(assoc_L (++)).
  - unfold fired. simpl.
    destruct (status <$> resultById this !! id) as [s|]; simpl;
      repeat case_match; by rewrite <- !(assoc_L (++)).
Qed.

(** C7. [fireEvents] appends the events of the node to what the emitter has
    fired and returns true. The events of a Suite are its running marker, the
    events of each child in order, and its completed marker. The events of a
    Test are its running marker and one terminal marker with the built
    message: [passed] when the indexed result has status [pass], [skipped]
    when it has status [todo], [failed] for any other status and when no
    result is indexed for the id. *)
Theorem fireEvents_depth_first this node emitter :
  fireEvents buildMessage this node emitter
    = (emitter ++ fired buildMessage this node, true)
  ∧ match node with
    | Suite id _ _ _ children =>
        fired buildMessage this node
          = [TestSuiteEvent id "running"]
            ++ concat (map (fired buildMessage this) children)
            ++ [TestSuiteEvent id "completed"]
    | Test id _ _ _ _ =>
        fired buildMessage this node
          = [TestEvent id "running" None;
             TestEvent id
               (match resultById this !! id with
                | Some result =>
                    if bool_decide (status result = "pass") then "passed"
                    else if bool_decide (status result = "todo") then "skipped"
                    else "failed"
                | None => "failed"
                end)
               (Some (buildMessage (resultById this !! id)))]
    end.
Proof.
  split; [apply fireEvents_appends |].
  destruct node as [id label description file children
                   |id label description file skipped].
  - unfold fired at 1. simpl. rewrite fire_children; [done |].
    apply Forall_forall. intros c _. apply fireEvents_appends.
  - unfold fired. simpl. destruct (resultById this !! id) as [result|]; simpl;
      [|done].
    destruct (String.eqb_spec (status result) "pass") as [->|Hpass]; [done |].
    rewrite (bool_decide_eq_false_2 _ Hpass).
    destruct (String.eqb_spec (status result) "todo") as [->|Htodo]; [done |].
    by rewrite (bool_decide_eq_false_2 _ Htodo).
Qed.

Lemma fired_suite this id label description file children :
  fired buildMessage this (Suite id label description file children)
    = [TestSuiteEvent id "running"]
      ++ concat (map (fired buildMessage this) children)
      ++ [TestSuiteEvent id "completed"].
Proof.
  unfold fired at 1. simpl. rewrite fire_children; [done |].
  apply Forall_forall. intros c _. apply fireEvents_appends.
Qed.

Lemma fired_test this id label description file skipped :
  ∃ state message,
    fired buildMessage this (Test id label description file skipped)
      = [TestEvent id "running" None; TestEvent id state (Some message)].
Proof.
  unfold fired. simpl.
  destruct (status <$> resultById this !! id) as [s|]; simpl;
    repeat case_match; eauto.
Qed.

Lemma omap_concat {A B} (f : A → option B) (ls : list (list A)) :
  omap f (concat ls) = concat (map (omap f) ls).
Proof.
  induction ls as [|l ls IH]; [done |]. simpl. by rewrite omap_app, IH.
Qed.

Lemma map_ext_Forall {A B} (f g : A → B) (l : list A) :
  Forall (λ x, f x = g x) l → map f l = map g l.
Proof. induction 1 as [|x l Hx _ IH]; [done |]. simpl. by rewrite Hx, IH. Qed.

(** X5. [fireEvents] fires two events for every node of the tree: as many
    events as twice the suites and the leaves. *)
Theorem fireEvents_two_per_node this node :
  length (fired buildMessage this node)
    = 2 * (suite_count node + length (tests_of node)).
Proof.
  induction node as [id label description file children IH
                    |id label description file skipped]
    using TestNode_forall_ind.
  - rewrite fired_suite. simpl. rewrite length_app. simpl.
    assert (length (concat (map (fired buildMessage this) children))
            = 2 * (sum_list_with suite_count children
                   + length (concat (map tests_of children)))) as ->; [|lia].
    induction IH as [|c children Hc _ IHc]; [done |].
    simpl. rewrite !length_app, Hc, IHc. lia.
  - by destruct (fired_test this id label description file skipped)
      as (state & message & ->).
Qed.

(** X6. The order of the events of [fireEvents]: the terminal markers come for
    the leaves of the tree in depth-first order, one for each; the running
    markers of the suites come with a suite before the suites below it, the
    completed markers with a suite behind the suites below it. *)
Theorem fireEvents_order this node :
  terminal_ids (fired buildMessage this node) = map node_id (tests_of node)
  ∧ suite_markers "running" (fired buildMessage this node)
    = suites_preorder node
  ∧ suite_markers "completed" (fired buildMessage this node)
    = suites_postorder node.
Proof.
  induction node as [id label description file children IH
                    |id label description file skipped]
    using TestNode_forall_ind.
  - rewrite fired_suite. unfold terminal_ids, suite_markers.
    rewrite !omap_app, !omap_concat, !map_map. simpl.
    rewrite !app_nil_r. split_and!.
    + rewrite concat_map, map_map. f_equal.
      apply map_ext_Forall. eapply Forall_impl; [exact IH |].
      by intros c (Hc & _ & _).
    + f_equal. f_equal. apply map_ext_Forall.
      eapply Forall_impl; [exact IH |]. by intros c (_ & Hc & _).
    + f_equal. f_equal. apply map_ext_Forall.
      eapply Forall_impl; [exact IH |]. by intros c (_ & _ & Hc).
  - by destruct (fired_test this id label description file skipped)
      as (state & message & ->).
Qed.

End Replay.

(** *** The line parser *)

(** C9. The parser returns a result record or a string for every line, with
    any decoder; a line that does not decode, and a line whose [event] field
    is missing or none of the three recognised events, come back as they
    are. *)
Theorem parseLine_total (decode : string → option JSON) (line : string) :
  ((∃ result, parseLine decode line = OutResult result)
   ∨ (∃ s, parseLine decode line = OutLine s))
  ∧ (decode line = None → parseLine decode line = OutLine line)
  ∧ (∀ json, decode line = Some json →
       (∀ e, event_of json = Some e →
          e ∉ ["testCompleted"; "runStart"; "runComplete"]) →
       parseLine decode line = OutLine line).
Proof.
  split_and!.
  - unfold parseLine. repeat case_match; eauto.
  - intros Hd. unfold parseLine. by rewrite Hd.
  - intros json Hd He. unfold parseLine. rewrite Hd.
    destruct (event_of json) as [e|]; [|done].
    specialize (He e eq_refl).
    destruct (String.eqb_spec e "testCompleted") as [->|_]; [set_solver |].
    destruct (String.eqb_spec e "runStart") as [->|_]; [set_solver |].
    destruct (String.eqb_spec e "runComplete") as [->|_]; [set_solver |].
    done.
Qed.

(** *** Dispatching the parsed lines *)

Lemma accept_other this r :
  event r ≠ "testCompleted" → accept fsPath this (Some r) = Some this.
Proof.
  intros Hne. unfold accept. rewrite (bool_decide_eq_false_2 _ Hne).
  by repeat case_bool_decide.
Qed.

Lemma accept_completed this r :
  event r = "testCompleted" →
  accept fsPath this (Some r) =
    l ← loadingSuite this;
    suite ← heap this !! l;
    '(suite', id) ← addResult fsPath suite
                      (set_messages r (pendingMessages this));
    Some (mkRunner (loadedSuite this)
            (<[id := set_messages r (pendingMessages this)]> (resultById this))
            (loadingSuite this) [] (<[l := suite']> (heap this))).
Proof.
  intros He. unfold accept. by rewrite (bool_decide_eq_true_2 _ He).
Qed.

(** What a dispatch that returns has done. *)
Lemma dispatch_inv this o this' :
  dispatch fsPath this o = Some this' →
  (∃ s, o = OutLine s ∧ this' = pushMessage this s)
  ∨ (is_completed o = false ∧ this' = this)
  ∨ (∃ r l suite suite' id,
       o = OutResult r ∧ event r = "testCompleted"
       ∧ loadingSuite this = Some l ∧ heap this !! l = Some suite
       ∧ addResult fsPath suite (set_messages r (pendingMessages this))
         = Some (suite', id)
       ∧ this' = mkRunner (loadedSuite this)
                   (<[id := set_messages r (pendingMessages this)]>
                      (resultById this))
                   (loadingSuite this) [] (<[l := suite']> (heap this))).
Proof.
  destruct o as [s|r|]; unfold dispatch; intros Hd.
  - left. exists s. by simplify_eq.
  - destruct (decide (event r = "testCompleted")) as [He|He].
    + right. right. rewrite (accept_completed _ _ He) in Hd.
      destruct (loadingSuite this) as [l|] eqn:Hl; [|done]. simpl in Hd.
      destruct (heap this !! l) as [suite|] eqn:Hs; [|done]. simpl in Hd.
      destruct (addResult fsPath suite _) as [[suite' id]|] eqn:Ha; [|done].
      simpl in Hd. exists r, l, suite, suite', id. by simplify_eq.
    + right. left. rewrite (accept_other _ _ He) in Hd.
      split; [by apply bool_decide_eq_false_2 | by simplify_eq].
  - right. left. simpl in Hd. by simplify_eq.
Qed.

Lemma dispatch_all_app this os1 os2 :
  dispatch_all fsPath this (os1 ++ os2)
    = dispatch_all fsPath this os1 ≫= λ this, dispatch_all fsPath this os2.
Proof.
  revert this. induction os1 as [|o os1 IH]; intros this; [done |].
  simpl. destruct (dispatch fsPath this o) as [this1|]; simpl; [apply IH | done].
Qed.

Lemma dispatch_all_one this o :
  dispatch_all fsPath this [o] = dispatch fsPath this o.
Proof.
  change (dispatch_all fsPath this [o])
    with (dispatch fsPath this o ≫= λ this, Some this).
  by destruct (dispatch fsPath this o).
Qed.

Lemma pushMessage_pending this s :
  pushMessage this s
    = with_pending this (pendingMessages this ++ buffered [OutLine s]).
Proof.
  unfold pushMessage, buffered, with_pending. simpl. case_bool_decide; simpl.
  - rewrite app_nil_r. by destruct this.
  - done.
Qed.

(** Outputs that are no [testCompleted] record only fill the buffer. *)
Lemma dispatch_all_between this between :
  Forall (λ o, is_completed o = false) between →
  dispatch_all fsPath this between
    = Some (with_pending this (pendingMessages this ++ buffered between)).
Proof.
  intros Hb. revert this.
  induction Hb as [|o between Ho _ IH]; intros this.
  { simpl. unfold with_pending, buffered. simpl. rewrite app_nil_r.
    by destruct this. }
  change (dispatch_all fsPath this (o :: between))
    with (dispatch fsPath this o ≫= λ this, dispatch_all fsPath this between).
  destruct o as [s|r|]; unfold dispatch.
  - simpl. rewrite IH, pushMessage_pending. f_equal.
    unfold with_pending, buffered. simpl.
    case_bool_decide; simpl; by rewrite ?app_nil_r, <- ?(assoc_L (++)).
  - simpl in Ho. apply bool_decide_eq_false in Ho.
    rewrite (accept_other _ _ Ho). simpl. by rewrite IH.
  - simpl. by rewrite IH.
Qed.

(** With a loading tree and labelled records, nothing throws. *)
Lemma dispatch_total this o :
  has_loading_tree this → labelled o →
  ∃ this', dispatch fsPath this o = Some this' ∧ has_loading_tree this'.
Proof.
  intros (l & suite & Hl & Hs) Hlab. destruct o as [s|r|]; unfold dispatch.
  - eexists. split; [done |]. exists l, suite.
    unfold pushMessage. by case_bool_decide.
  - destruct (decide (event r = "testCompleted")) as [He|He].
    + rewrite (accept_completed _ _ He), Hl. simpl. rewrite Hs. simpl.
      destruct (addResult_total (set_messages r (pendingMessages this)) suite)
        as [[suite' id] Ha]; [by apply Hlab |].
      rewrite Ha. simpl. eexists. split; [done |].
      exists l, suite'. simpl. by rewrite lookup_insert_eq.
    + rewrite (accept_other _ _ He). exists this. split; [done |].
      by exists l, suite.
  - exists this. split; [done |]. by exists l, suite.
Qed.

Lemma dispatch_all_total this os :
  has_loading_tree this → Forall labelled os →
  ∃ this', dispatch_all fsPath this os = Some this' ∧ has_loading_tree this'.
Proof.
  intros Ht Hos. revert this Ht.
  induction Hos as [|o os Ho _ IH]; intros this Ht; [by exists this |].
  destruct (dispatch_total this o Ht Ho) as (this1 & Hd & Ht1).
  destruct (IH this1 Ht1) as (this' & Hall & Ht').
  exists this'. simpl. by rewrite Hd.
Qed.

(** A [testCompleted] record takes the whole buffer and leaves it empty. *)
Lemma dispatch_completed this r :
  has_loading_tree this → event r = "testCompleted" → labels r ≠ [] →
  ∃ this' id,
    dispatch fsPath this (OutResult r) = Some this'
    ∧ has_loading_tree this'
    ∧ pendingMessages this' = []
    ∧ resultById this'
      = <[id := set_messages r (pendingMessages this)]> (resultById this).
Proof.
  intros Ht He Hr.
  destruct (dispatch_total this (OutResult r) Ht) as (this' & Hd & Ht');
    [by intros _ |].
  destruct (dispatch_inv _ _ _ Hd)
    as [(s & ? & _)|[[Hc _]|(r' & l & suite & suite' & id & Ho & _ & _ & _
                              & _ & ->)]].
  - done.
  - simpl in Hc. by apply bool_decide_eq_false in Hc.
  - simplify_eq. eexists _, id. by split_and!.
Qed.

Lemma with_pending_loading_tree this ms :
  has_loading_tree this → has_loading_tree (with_pending this ms).
Proof. intros (l & suite & ? & ?). by exists l, suite. Qed.

(** C2. In every sequence of dispatched parser outputs that does not throw
    (there is a loading tree and every [testCompleted] record has a label),
    take two [testCompleted] records [r0] and [r1] with no [testCompleted]
    record between them. The buffer is empty right after [r0] is accepted and
    right after [r1] is accepted. The result indexed for [r1] has as its
    [messages] field exactly the strings buffered between the two, in
    arrival order, whatever messages [r1] came with, and the other fields of
    [r1]; no other entry of the result index changes while [r1] is accepted,
    so these strings are attached to no other result. ([parse] dispatches
    the outputs of the parser for its lines.) *)
Theorem pending_messages_attach_to_next_result this before r0 between r1 :
  has_loading_tree this →
  Forall labelled before →
  event r0 = "testCompleted" → labels r0 ≠ [] →
  Forall (λ o, is_completed o = false) between →
  event r1 = "testCompleted" → labels r1 ≠ [] →
  ∃ this0 this1 id1 result,
    dispatch_all fsPath this (before ++ [OutResult r0]) = Some this0
    ∧ pendingMessages this0 = []
    ∧ dispatch_all fsPath this0 (between ++ [OutResult r1]) = Some this1
    ∧ dispatch_all fsPath this
        (before ++ [OutResult r0] ++ between ++ [OutResult r1]) = Some this1
    ∧ pendingMessages this1 = []
    ∧ resultById this1 !! id1 = Some result
    ∧ result = set_messages r1 (buffered between)
    ∧ messages result = buffered between
    ∧ event result = event r1 ∧ status result = status r1
    ∧ labels result = labels r1 ∧ failures result = failures r1
    ∧ (∀ id, id ≠ id1 → resultById this1 !! id = resultById this0 !! id).
Proof.
  intros Ht Hbefore He0 Hr0 Hbetween He1 Hr1.
  destruct (dispatch_all_total this before Ht Hbefore) as (thisa & Ha & Hta).
  destruct (dispatch_completed thisa r0 Hta He0 Hr0)
    as (this0 & id0 & Hd0 & Ht0 & Hp0 & _).
  pose proof (dispatch_all_between this0 between Hbetween) as Hb.
  rewrite Hp0 in Hb. simpl in Hb.
  destruct (dispatch_completed (with_pending this0 (buffered between)) r1
              (with_pending_loading_tree _ _ Ht0) He1 Hr1)
    as (this1 & id1 & Hd1 & Ht1 & Hp1 & Hi1).
  simpl in Hi1.
  assert (dispatch_all fsPath this (before ++ [OutResult r0]) = Some this0)
    as H0.
  { rewrite dispatch_all_app, Ha.
    change (dispatch_all fsPath thisa [OutResult r0] = Some this0).
    by rewrite dispatch_all_one. }
  assert (dispatch_all fsPath this0 (between ++ [OutResult r1]) = Some this1)
    as H1.
  { rewrite dispatch_all_app, Hb.
    change (dispatch_all fsPath (with_pending this0 (buffered between))
              [OutResult r1] = Some this1).
    by rewrite dispatch_all_one. }
  exists this0, this1, id1, (set_messages r1 (buffered between)).
  split_and!; try done.
  - by rewrite (assoc_L (++)), dispatch_all_app, H0.
  - by rewrite Hi1, lookup_insert_eq.
  - intros id Hid. by rewrite Hi1, lookup_insert_ne.
Qed.

(** X7. [accept] of a [testCompleted] record returns exactly when there is a
    loading tree and the record has a label; otherwise it throws. *)
Theorem accept_returns_iff this r :
  event r = "testCompleted" →
  is_Some (accept fsPath this (Some r))
  ↔ has_loading_tree this ∧ labels r ≠ [].
Proof.
  intros He. split.
  - intros [this' Ha]. rewrite (accept_completed _ _ He) in Ha.
    destruct (loadingSuite this) as [l|] eqn:Hl; [|done]. simpl in Ha.
    destruct (heap this !! l) as [suite|] eqn:Hs; [|done]. simpl in Ha.
    destruct (addResult fsPath suite _) as [[suite' id]|] eqn:Hadd; [|done].
    split; [by exists l, suite |].
    by apply addResult_labelled in Hadd.
  - intros [Ht Hr].
    destruct (dispatch_completed this r Ht He Hr) as (this' & id & Hd & _).
    by exists this'.
Qed.

Lemma first_result_after_start (m : gmap ref TestSuiteInfo) loaded index
    between r :
  Forall (λ o, is_completed o = false) between →
  event r = "testCompleted" → labels r ≠ [] →
  ∃ this1 result,
    dispatch_all fsPath
      (mkRunner loaded index (Some (fresh (dom m))) []
                (<[fresh (dom m) := root_suite]> m))
      (between ++ [OutResult r]) = Some this1
    ∧ pendingMessages this1 = []
    ∧ resultById this1 !! path_id (labels r) = Some result
    ∧ messages result = buffered between
    ∧ event result = event r ∧ status result = status r
    ∧ labels result = labels r ∧ failures result = failures r
    ∧ (∀ id, id ≠ path_id (labels r) → resultById this1 !! id = index !! id).
Proof.
  intros Hb He Hr. rewrite dispatch_all_app, (dispatch_all_between _ _ Hb).
  simpl pendingMessages. rewrite app_nil_l.
  change (Some ?x ≫= ?f) with (f x). cbv beta.
  rewrite dispatch_all_one. unfold dispatch.
  rewrite (accept_completed _ _ He). simpl. rewrite lookup_insert_eq. simpl.
  destruct (addResult_total (set_messages r (buffered between)) root_suite Hr)
    as [[suite' id] Ha].
  rewrite Ha. simpl.
  destruct (addResult_ids_ok _ root_suite _ _ eq_refl Ha) as [_ ->].
  eexists _, (set_messages r (buffered between)).
  split_and!; try done.
  - cbn [resultById]. by rewrite lookup_insert_eq.
  - intros id Hid. cbn [resultById]. by rewrite lookup_insert_ne.
Qed.

(** X8. A run starts with an empty buffer: for the first [testCompleted]
    record of a full run and of a partial run, the result indexed under the
    id of its label path has as its [messages] field exactly the strings
    buffered since the start of the run, whatever the buffer held before the
    start and whatever messages the record came with, and the other fields
    of the record; no other entry of the index changes. *)
Theorem first_result_gets_messages_since_start this files between r :
  Forall (λ o, is_completed o = false) between →
  event r = "testCompleted" → labels r ≠ [] →
  ∀ started,
    started = (runAllTests this).1 ∨ started = (runSomeTests this files).1 →
    ∃ this1 result,
      dispatch_all fsPath started (between ++ [OutResult r]) = Some this1
      ∧ pendingMessages this1 = []
      ∧ resultById this1 !! path_id (labels r) = Some result
      ∧ messages result = buffered between
      ∧ event result = event r ∧ status result = status r
      ∧ labels result = labels r ∧ failures result = failures r
      ∧ (∀ id, id ≠ path_id (labels r) →
           resultById this1 !! id = resultById this !! id).
Proof.
  intros Hb He Hr started [-> | ->].
  - exact (first_result_after_start (heap this) None (resultById this)
             between r Hb He Hr).
  - exact (first_result_after_start (heap this) (loadedSuite this)
             (resultById this) between r Hb He Hr).
Qed.

(** *** Chunks of output *)

Lemma split_lines_nonempty (s : string) : split_lines s ≠ [].
Proof.
  destruct s as [|a s]; [done |]. simpl.
  destruct (Ascii.eqb a _); [done |]. by destruct (split_lines s).
Qed.

Lemma split_lines_cons (a : ascii) (s : string) :
  Ascii.eqb a (ascii_of_nat 10) = false →
  ∃ line lines,
    split_lines s = line :: lines
    ∧ split_lines (String a s) = String a line :: lines.
Proof.
  intros Ha. simpl. rewrite Ha.
  destruct (split_lines s) as [|line lines] eqn:Hs.
  - by destruct (split_lines_nonempty s).
  - by exists line, lines.
Qed.

Lemma split_lines_newline (d1 d2 : string) :
  split_lines (d1 +:+ newline +:+ d2) = split_lines d1 ++ split_lines d2.
Proof.
  induction d1 as [|a d1 IH]; [done |]. rewrite append_cons.
  destruct (Ascii.eqb a (ascii_of_nat 10)) eqn:Ha.
  - simpl. rewrite Ha. simpl. by rewrite IH.
  - destruct (split_lines_cons a d1 Ha) as (line & lines & Hs & ->).
    destruct (split_lines_cons a (d1 +:+ newline +:+ d2) Ha)
      as (line' & lines' & Hs' & ->).
    rewrite IH, Hs in Hs'. by simplify_eq/=.
Qed.

(** *** Runs *)

Section Run.

Variable parseTestResult : string → ParseOutput.
Variable toString : string → string.

Lemma parse_one this line :
  parse fsPath parseTestResult this [line]
    = dispatch fsPath this (parseTestResult line).
Proof. unfold parse. simpl map. apply dispatch_all_one. Qed.

(** What [dispatch] and a throwing [accept] keep, the lines of a chunk
    keep. *)
Lemma parse_each_invariant (I : ElmTestRunner → Prop) :
  (∀ this o this', I this → dispatch fsPath this o = Some this' → I this') →
  (∀ this, I this → I (accept_thrown this)) →
  ∀ lines this,
    I this → I (parse_each fsPath parseTestResult this lines).1.
Proof.
  intros Hdispatch Hthrown.
  induction lines as [|line lines IH]; intros this HI; [done |].
  simpl parse_each. rewrite parse_one.
  destruct (dispatch fsPath this (parseTestResult line)) as [this1|] eqn:Hd.
  - apply IH. eauto.
  - by apply Hthrown.
Qed.

(** While no line throws, the lines of a chunk are dispatched in order. *)
Lemma parse_each_returns lines this that :
  parse fsPath parseTestResult this lines = Some that →
  ∀ lines',
    parse_each fsPath parseTestResult this (lines ++ lines')
      = parse_each fsPath parseTestResult that lines'.
Proof.
  unfold parse. revert this.
  induction lines as [|line lines IH]; intros this Hp lines'.
  { simpl in Hp. by simplify_eq. }
  change (map parseTestResult (line :: lines))
    with (parseTestResult line :: map parseTestResult lines) in Hp.
  change (dispatch_all fsPath this
            (parseTestResult line :: map parseTestResult lines))
    with (dispatch fsPath this (parseTestResult line)
            ≫= λ this, dispatch_all fsPath this (map parseTestResult lines))
    in Hp.
  change ((line :: lines) ++ lines') with (line :: (lines ++ lines')).
  simpl parse_each. rewrite parse_one.
  destruct (dispatch fsPath this (parseTestResult line)) as [this1|];
    [|done].
  by apply IH.
Qed.

(** An invariant of [dispatch] and of the other steps holds along a run. *)
Lemma run_cons this a actions :
  run fsPath parseTestResult toString this (a :: actions)
    = ((run fsPath parseTestResult toString
          (step fsPath parseTestResult toString this a).1 actions).1,
       (step fsPath parseTestResult toString this a).2
       ++ (run fsPath parseTestResult toString
             (step fsPath parseTestResult toString this a).1 actions).2).
Proof.
  simpl. destruct (step fsPath parseTestResult toString this a) as [this1 e1].
  simpl. by destruct (run fsPath parseTestResult toString this1 actions).
Qed.

Lemma run_invariant (I : ElmTestRunner → Prop) :
  (∀ this o this', I this → dispatch fsPath this o = Some this' → I this') →
  (∀ this, I this → I (accept_thrown this)) →
  (∀ this, I this → I (runAllTests this).1) →
  (∀ this files, I this → I (runSomeTests this files).1) →
  (∀ this, I this → I (onClose this).1) →
  ∀ actions this this' effects,
    I this →
    run fsPath parseTestResult toString this actions = (this', effects) →
    I this'.
Proof.
  intros Hdispatch Hthrown Hall Hsome Hclose.
  induction actions as [|a actions IH]; intros this this' effects HI Hrun;
    simpl in Hrun.
  { by simplify_eq. }
  destruct (step fsPath parseTestResult toString this a) as [this1 e1]
    eqn:Hstep.
  destruct (run fsPath parseTestResult toString this1 actions) as [this2 e2]
    eqn:Hr.
  simplify_eq. eapply IH; [|exact Hr].
  apply (f_equal fst) in Hstep. simpl in Hstep. subst this1.
  destruct a as [|files|same_task exitCode|data|].
  - exact (Hall _ HI).
  - exact (Hsome _ files HI).
  - exact HI.
  - unfold step, onStdoutData. by apply parse_each_invariant.
  - exact (Hclose _ HI).
Qed.

Lemma dispatch_no_empty this o this' :
  no_empty_message this → dispatch fsPath this o = Some this' →
  no_empty_message this'.
Proof.
  intros [Hp Hi] Hd.
  destruct (dispatch_inv _ _ _ Hd)
    as [(s & -> & ->)|[[_ ->]|(r & l & suite & suite' & id & -> & _ & _ & _
                                & _ & ->)]]; [| done |].
  - unfold pushMessage. case_bool_decide; [done |]. split; [|done]. simpl.
    rewrite elem_of_app, list_elem_of_singleton. intros [?|?]; congruence.
  - split; simpl; [apply not_elem_of_nil |].
    intros id' r' [[_ <-]|[_ ?]]%lookup_insert_Some; [done | eauto].
Qed.

(** C10. [pushMessage] drops the empty string, so dispatching an empty
    diagnostic string leaves the runner as it is; and along every run of a
    new runner (calls of [runAllTests] and [runSomeTests], ends of the build
    task, chunks of output of the report run with any parser and decoder,
    chunks in which [accept] throws included, and closes) the buffer of
    pending messages never holds the empty string and no indexed result has
    an empty string among its messages. *)
Theorem empty_messages_are_discarded actions this effects :
  run fsPath parseTestResult toString new_runner actions = (this, effects) →
  no_empty_message this
  ∧ (∀ that, dispatch fsPath that (OutLine "") = Some that).
Proof.
  intros Hrun. split; [|done].
  eapply (run_invariant no_empty_message); [ | | | | | | exact Hrun].
  - apply dispatch_no_empty.
  - intros that [_ Hi]. split; [apply not_elem_of_nil | exact Hi].
  - intros that [_ Hi]. split; [apply not_elem_of_nil | exact Hi].
  - intros that files [_ Hi]. split; [apply not_elem_of_nil | exact Hi].
  - intros that [Hp Hi]. unfold onClose. by destruct (loadedSuite that).
  - split; [apply not_elem_of_nil |]. intros id r Hl. by simplify_map_eq.
Qed.

Lemma dispatch_loading_ok this o this' :
  loading_tree_ok this → dispatch fsPath this o = Some this' →
  loading_tree_ok this'.
Proof.
  intros (l & suite & Hl & Hs & Hok) Hd.
  destruct (dispatch_inv _ _ _ Hd)
    as [(s & -> & ->)|[[_ ->]|(r & l' & suite0 & suite' & id & -> & _ & Hl'
                                & Hs' & Ha & ->)]].
  - exists l, suite. unfold pushMessage. by case_bool_decide.
  - by exists l, suite.
  - simplify_eq. destruct (addResult_ids_ok _ _ _ _ Hok Ha) as [Hok' _].
    exists l, suite'. simpl. by rewrite lookup_insert_eq.
Qed.

(** A dispatch writes the index at most at the id of the label path of a
    [testCompleted] record. *)
Lemma dispatch_index this o this' id r :
  loading_tree_ok this → dispatch fsPath this o = Some this' →
  resultById this !! id = Some r →
  (∀ r', o = OutResult r' → event r' = "testCompleted" →
     id ≠ path_id (labels r')) →
  resultById this' !! id = Some r.
Proof.
  intros (l & suite & Hl & Hs & Hok) Hd Hid Hfree.
  destruct (dispatch_inv _ _ _ Hd)
    as [(s & -> & ->)|[[_ ->]|(r' & l' & suite0 & suite' & id' & -> & He & Hl'
                                & Hs' & Ha & ->)]].
  - unfold pushMessage. by case_bool_decide.
  - done.
  - simplify_eq. destruct (addResult_ids_ok _ _ _ _ Hok Ha) as [_ Hid'].
    simpl in Hid'. simpl. rewrite lookup_insert_ne; [done |].
    rewrite Hid'. intros Heq. by apply (Hfree r' eq_refl He).
Qed.

Lemma dispatch_all_index this os :
  loading_tree_ok this → Forall labelled os →
  ∃ this',
    dispatch_all fsPath this os = Some this'
    ∧ ∀ id r,
        resultById this !! id = Some r →
        (∀ r', OutResult r' ∈ os → event r' = "testCompleted" →
           id ≠ path_id (labels r')) →
        resultById this' !! id = Some r.
Proof.
  intros Hok Hos. revert this Hok.
  induction Hos as [|o os Ho _ IH]; intros this Hok; [by exists this |].
  destruct (dispatch_total this o) as (this1 & Hd & _); [|done |].
  { destruct Hok as (l & suite & ? & ? & _). by exists l, suite. }
  destruct (IH this1 (dispatch_loading_ok _ _ _ Hok Hd)) as (this' & Hall & Hi).
  exists this'. split; [simpl; by rewrite Hd |].
  intros id r Hid Hfree. apply Hi.
  - eapply dispatch_index; [done.. |].
    intros r' -> He. apply Hfree; [left | done].
  - intros r' Hin He. apply Hfree; [by right | done].
Qed.

Lemma started_loading_ok (m : gmap ref TestSuiteInfo) loaded index :
  loading_tree_ok
    (mkRunner loaded index (Some (fresh (dom m))) []
              (<[fresh (dom m) := root_suite]> m)).
Proof.
  exists (fresh (dom m)), root_suite. simpl. by rewrite lookup_insert_eq.
Qed.

(** C1, as amended. Neither [runAllTests] nor [runSomeTests] touches the
    result index: right after the start of a full run and of a partial run
    the index is the one from before. When outputs with labelled
    [testCompleted] records are then dispatched, in a full run as in a
    partial run, nothing throws, and every entry that was in the index before
    the run, and whose id is not the id of the label path of a
    [testCompleted] record dispatched in the run, is still there
    unchanged. *)
Theorem result_index_survives_run_start this files outputs :
  Forall labelled outputs →
  resultById (runAllTests this).1 = resultById this
  ∧ resultById (runSomeTests this files).1 = resultById this
  ∧ (∀ started,
       started = (runAllTests this).1
       ∨ started = (runSomeTests this files).1 →
       ∃ this',
         dispatch_all fsPath started outputs = Some this'
         ∧ ∀ id r,
             resultById this !! id = Some r →
             (∀ r', OutResult r' ∈ outputs → event r' = "testCompleted" →
                id ≠ path_id (labels r')) →
             resultById this' !! id = Some r).
Proof.
  intros Hos. split_and!; [done.. |].
  intros started [->| ->].
  - destruct (dispatch_all_index (runAllTests this).1 outputs
                (started_loading_ok _ _ _) Hos) as (this' & Hd & Hi).
    exists this'. split; [exact Hd | exact Hi].
  - destruct (dispatch_all_index (runSomeTests this files).1 outputs
                (started_loading_ok _ _ _) Hos) as (this' & Hd & Hi).
    exists this'. split; [exact Hd | exact Hi].
Qed.

(** The events of the report run keep what [dispatch] keeps. *)
Lemma run_streaming_invariant (I : ElmTestRunner → Prop) :
  (∀ this o this', I this → dispatch fsPath this o = Some this' → I this') →
  (∀ this, I this → I (accept_thrown this)) →
  ∀ actions this this' effects,
    Forall streaming actions → I this →
    run fsPath parseTestResult toString this actions = (this', effects) →
    I this'.
Proof.
  intros Hdispatch Hthrown.
  induction actions as [|a actions IH]; intros this this' effects Hs HI Hrun;
    simpl in Hrun.
  { by simplify_eq. }
  apply Forall_cons in Hs as [Ha Hs].
  destruct (step fsPath parseTestResult toString this a) as [this1 e1]
    eqn:Hstep.
  destruct (run fsPath parseTestResult toString this1 actions) as [this2 e2]
    eqn:Hr.
  simplify_eq. eapply IH; [exact Hs | | exact Hr].
  apply (f_equal fst) in Hstep. simpl in Hstep. subst this1.
  destruct a as [|files|same_task exitCode|data|]; try done.
  unfold step, onStdoutData. by apply parse_each_invariant.
Qed.

Lemma dispatch_keeps_loading this o this' l :
  loadedSuite this = None ∧ loadingSuite this = Some l
    ∧ is_Some (heap this !! l) →
  dispatch fsPath this o = Some this' →
  loadedSuite this' = None ∧ loadingSuite this' = Some l
    ∧ is_Some (heap this' !! l).
Proof.
  intros (Hloaded & Hloading & Hheap) Hd.
  destruct (dispatch_inv _ _ _ Hd)
    as [(s & -> & ->)|[[_ ->]|(r' & l' & suite0 & suite' & id' & -> & He & Hl'
                                & Hs' & Ha & ->)]].
  - unfold pushMessage. by case_bool_decide.
  - done.
  - simplify_eq. simpl. split_and!; [done.. |]. by rewrite lookup_insert_eq.
Qed.

(** C6. When the report process closes and no loaded tree exists, the
    loading tree becomes the loaded tree; when a loaded tree exists, the
    runner stays as it is. In both cases [resolve] is called with a finished
    event that carries the loaded tree. After [runAllTests], whatever the
    build task and the output of the report run bring, no loaded tree exists
    at the close, so the tree of a full run is promoted. *)
Theorem close_promotes_loading_tree this :
  (loadedSuite this = None →
     onClose this
       = (mkRunner (loadingSuite this) (resultById this) (loadingSuite this)
                   (pendingMessages this) (heap this),
          [Resolve (mkFinished "finished" (loadingSuite this))]))
  ∧ (∀ l, loadedSuite this = Some l →
       onClose this = (this, [Resolve (mkFinished "finished" (Some l))]))
  ∧ (∀ middle that effects,
       Forall streaming middle →
       run fsPath parseTestResult toString this (RunAllTests :: middle)
         = (that, effects) →
       ∃ l suite,
         loadedSuite that = None ∧ loadingSuite that = Some l
         ∧ heap that !! l = Some suite
         ∧ loadedSuite (onClose that).1 = Some l
         ∧ heap (onClose that).1 !! l = Some suite
         ∧ (onClose that).2 = [Resolve (mkFinished "finished" (Some l))]).
Proof.
  split_and!.
  - intros Hnone. unfold onClose. by rewrite Hnone.
  - intros l Hsome. unfold onClose. rewrite Hsome. simpl. by rewrite Hsome.
  - intros middle that effects Hs Hrun.
    rewrite run_cons in Hrun.
    change (step fsPath parseTestResult toString this RunAllTests)
      with (runAllTests this) in Hrun.
    destruct (run fsPath parseTestResult toString (runAllTests this).1 middle)
      as [that' effects'] eqn:Hmiddle.
    simpl in Hrun. simplify_eq.
    set (l := fresh (dom (heap this))).
    assert (loadedSuite (runAllTests this).1 = None
            ∧ loadingSuite (runAllTests this).1 = Some l
            ∧ is_Some (heap (runAllTests this).1 !! l)) as Hstart.
    { split_and!; [done.. |]. simpl. fold l. by rewrite lookup_insert_eq. }
    destruct (run_streaming_invariant
                (λ that, loadedSuite that = None ∧ loadingSuite that = Some l
                         ∧ is_Some (heap that !! l))
                (λ this o this', dispatch_keeps_loading this o this' l)
                (λ this H, H)
                _ _ _ _ Hs Hstart Hmiddle)
      as (Hloaded & Hloading & [suite Hsuite]).
    exists l, suite. unfold onClose. rewrite Hloaded. simpl.
    rewrite Hloading. by split_and!.
Qed.

(** *** More on runs *)

Lemma run_app this actions1 actions2 :
  run fsPath parseTestResult toString this (actions1 ++ actions2)
    = ((run fsPath parseTestResult toString
          (run fsPath parseTestResult toString this actions1).1 actions2).1,
       (run fsPath parseTestResult toString this actions1).2
       ++ (run fsPath parseTestResult toString
             (run fsPath parseTestResult toString this actions1).1
             actions2).2).
Proof.
  revert this. induction actions1 as [|a actions1 IH]; intros this.
  { simpl. by destruct (run fsPath parseTestResult toString this actions2). }
  change ((a :: actions1) ++ actions2) with (a :: (actions1 ++ actions2)).
  rewrite !run_cons, IH. simpl. by rewrite (assoc_L (++)).
Qed.

(** X11. With a parser that hands the empty line back as it is, or as
    nothing, and a decoder that decodes the chunks around a newline apart,
    the end of a chunk right behind a newline changes nothing when no line
    in front of it throws: the two chunks leave the runner, and what is
    thrown from the lines behind the newline, as the one chunk of both
    does. *)
Theorem chunk_boundary_after_newline this (data1 data2 : string) :
  parseTestResult "" = OutLine "" ∨ parseTestResult "" = OutNull →
  toString (data1 +:+ newline) = toString data1 +:+ newline →
  toString (data1 +:+ newline +:+ data2)
    = toString data1 +:+ newline +:+ toString data2 →
  is_Some (parse fsPath parseTestResult this
             (split_lines (toString data1))) →
  run fsPath parseTestResult toString this
    [StdoutData (data1 +:+ newline); StdoutData data2]
  = run fsPath parseTestResult toString this
      [StdoutData (data1 +:+ newline +:+ data2)].
Proof.
  intros Hempty Hd1 Hd2 [that Hthat].
  assert (parse_each fsPath parseTestResult that [""] = (that, [])) as Hnoop.
  { simpl parse_each. rewrite parse_one. by destruct Hempty as [-> | ->]. }
  rewrite !run_cons. cbn [step run]. unfold onStdoutData.
  rewrite Hd1, Hd2.
  change (toString data1 +:+ newline)
    with (toString data1 +:+ newline +:+ "").
  rewrite !split_lines_newline. cbn [split_lines].
  rewrite !(parse_each_returns _ _ _ Hthat), Hnoop. simpl.
  by rewrite app_nil_r.
Qed.

Lemma accept_throws this r :
  event r = "testCompleted" →
  labels r = [] ∨ ¬ has_loading_tree this →
  accept fsPath this (Some r) = None.
Proof.
  intros He Hbad. rewrite (accept_completed _ _ He).
  destruct (loadingSuite this) as [l|] eqn:Hl; [|done]. simpl.
  destruct (heap this !! l) as [suite|] eqn:Hs; [|done]. simpl.
  destruct (addResult fsPath suite _) as [[suite' id]|] eqn:Hadd; [|done].
  apply addResult_labelled in Hadd. simpl in Hadd.
  destruct Hbad as [Hnil|Hno]; [done |]. destruct Hno. by exists l, suite.
Qed.

(** X17. A [testCompleted] line that makes [accept] throw, for want of a
    label or of a loading tree, ends the listener of its chunk: the lines
    in front of it are dispatched, the lines behind it in the chunk are
    not, the buffer is left drained and the exception goes uncaught. The
    run goes on from that runner with the next event. *)
Theorem throw_skips_rest_of_chunk this data before line after that r actions :
  split_lines (toString data) = before ++ line :: after →
  parse fsPath parseTestResult this before = Some that →
  parseTestResult line = OutResult r →
  event r = "testCompleted" →
  labels r = [] ∨ ¬ has_loading_tree that →
  onStdoutData fsPath parseTestResult toString this data
    = (with_pending that [], [UncaughtTypeError])
  ∧ run fsPath parseTestResult toString this (StdoutData data :: actions)
    = ((run fsPath parseTestResult toString (with_pending that []) actions).1,
       UncaughtTypeError
       :: (run fsPath parseTestResult toString (with_pending that [])
             actions).2).
Proof.
  intros Hlines Hbefore Hline He Hbad.
  assert (onStdoutData fsPath parseTestResult toString this data
          = (with_pending that [], [UncaughtTypeError])) as Hdata.
  { unfold onStdoutData. cbv zeta.
    rewrite Hlines, (parse_each_returns _ _ _ Hbefore).
    simpl parse_each. rewrite parse_one, Hline. unfold dispatch.
    by rewrite (accept_throws _ _ He Hbad). }
  split; [done |]. rewrite run_cons.
  change (step fsPath parseTestResult toString this (StdoutData data))
    with (onStdoutData fsPath parseTestResult toString this data).
  by rewrite Hdata.
Qed.

Lemma dispatch_runner_ok this o this' :
  runner_ok this → dispatch fsPath this o = Some this' → runner_ok this'.
Proof.
  intros (Hloaded & Hloading & Hheap & Hindex) Hd.
  destruct (dispatch_inv _ _ _ Hd)
    as [(s & -> & ->)|[[_ ->]|(r & l & suite & suite' & id & -> & He & Hl
                                & Hs & Ha & ->)]].
  - unfold pushMessage. by case_bool_decide.
  - done.
  - destruct (Hheap l suite Hs) as [Hok Hleaves].
    destruct (addResult_ids_ok _ _ _ _ Hok Ha) as [Hok' Hid].
    destruct (addResult__tests _ _ _ _ _ Ha) as (lbl & file & _ & _ & Ht).
    pose proof (addResult_labelled _ _ _ _ Ha) as Hlab.
    split_and!; simpl.
    + intros l0 Hl0. apply lookup_insert_is_Some'. right. by apply Hloaded.
    + intros l0 Hl0. apply lookup_insert_is_Some'. right. by apply Hloading.
    + intros l0 s0 [[<- <-]|[Hne Hs0]]%lookup_insert_Some.
      * split; [done |]. intros n Hn. rewrite Ht in Hn.
        apply lookup_insert_is_Some'.
        apply elem_of_app in Hn as [Hn|Hn%list_elem_of_singleton].
        -- right. by apply Hleaves.
        -- left. by subst n.
      * destruct (Hheap l0 s0 Hs0) as [Hok0 Hleaves0]. split; [done |].
        intros n Hn. apply lookup_insert_is_Some'. right. by apply Hleaves0.
    + intros id0 r0 [[<- <-]|[Hne Hr0]]%lookup_insert_Some; [|by apply Hindex].
      by split_and!.
Qed.

(** [runner_ok] holds along every run of a new runner. *)
Lemma run_runner_ok actions this effects :
  run fsPath parseTestResult toString new_runner actions = (this, effects) →
  runner_ok this.
Proof.
  intros Hrun.
  eapply (run_invariant runner_ok); [ | | | | | | exact Hrun].
  - apply dispatch_runner_ok.
  - by intros that Hok.
  - intros that (Hloaded & Hloading & Hheap & Hindex). split_and!; simpl.
    + done.
    + intros l [= <-]. by rewrite lookup_insert_eq.
    + intros l0 s0 [[<- <-]|[Hne Hs0]]%lookup_insert_Some;
        [|by apply (Hheap l0)].
      split; [done |]. intros n Hn. by apply elem_of_nil in Hn.
    + done.
  - intros that files (Hloaded & Hloading & Hheap & Hindex).
    split_and!; simpl.
    + intros l0 Hl0. apply lookup_insert_is_Some'. right. by apply Hloaded.
    + intros l [= <-]. by rewrite lookup_insert_eq.
    + intros l0 s0 [[<- <-]|[Hne Hs0]]%lookup_insert_Some;
        [|by apply (Hheap l0)].
      split; [done |]. intros n Hn. by apply elem_of_nil in Hn.
    + done.
  - intros that Hok. unfold onClose.
    destruct (loadedSuite that) eqn:Hl; simpl; [done |].
    destruct Hok as (Hloaded & Hloading & Hheap & Hindex).
    by split_and!.
  - by split_and!.
Qed.

(** X12. Along every run of a new runner, whatever the runs in it, the
    parser and the decoder, and whether or not a line throws, every entry of the result index holds a [testCompleted]
    record with at least one label under the id of the label path of the
    record: [root] and the labels, joined with [/]. *)
Theorem index_keys_are_label_paths actions this effects id r :
  run fsPath parseTestResult toString new_runner actions = (this, effects) →
  resultById this !! id = Some r →
  event r = "testCompleted" ∧ labels r ≠ [] ∧ id = path_id (labels r).
Proof.
  intros Hrun Hr.
  destruct (run_runner_ok _ _ _ Hrun) as (_ & _ & _ & Hindex).
  by apply Hindex.
Qed.

(** X13. Along every run of a new runner, the loaded tree and the loading tree
    are rooted at [root] with every node id on its label path, and every
    [Test] leaf of them has a result in the index, with the label path of
    the leaf: [fireEvents] on such a tree finds a result for every test. *)
Theorem tree_leaves_are_indexed actions this effects l :
  run fsPath parseTestResult toString new_runner actions = (this, effects) →
  loadedSuite this = Some l ∨ loadingSuite this = Some l →
  ∃ suite,
    heap this !! l = Some suite
    ∧ tree_ids_ok suite = true
    ∧ ∀ n, n ∈ tests_of (node_of_suite suite) →
        ∃ r, resultById this !! node_id n = Some r
             ∧ node_id n = path_id (labels r).
Proof.
  intros Hrun Hl.
  destruct (run_runner_ok _ _ _ Hrun) as (Hloaded & Hloading & Hheap & Hindex).
  assert (is_Some (heap this !! l)) as [suite Hs].
  { destruct Hl; [by apply Hloaded | by apply Hloading]. }
  destruct (Hheap l suite Hs) as [Hok Hleaves].
  exists suite. split_and!; [done.. |].
  intros n Hn. destruct (Hleaves n Hn) as [r Hr].
  exists r. split; [done |]. by apply (Hindex _ _ Hr).
Qed.

Lemma dispatch_keeps_loaded_tree this o this' l l' tree :
  l ≠ l' →
  loadedSuite this = Some l ∧ loadingSuite this = Some l'
    ∧ heap this !! l = Some tree →
  dispatch fsPath this o = Some this' →
  loadedSuite this' = Some l ∧ loadingSuite this' = Some l'
    ∧ heap this' !! l = Some tree.
Proof.
  intros Hne (Hloaded & Hloading & Hheap) Hd.
  destruct (dispatch_inv _ _ _ Hd)
    as [(s & -> & ->)|[[_ ->]|(r' & l0 & suite0 & suite' & id' & -> & He & Hl0
                                & Hs' & Ha & ->)]].
  - unfold pushMessage. by case_bool_decide.
  - done.
  - simplify_eq. simpl. split_and!; [done.. |]. by rewrite lookup_insert_ne.
Qed.

(** X14. A partial run leaves the loaded tree alone: when a loaded tree exists,
    [runSomeTests] builds its loading tree in a new object, the output of
    the run changes that object only, and at the close [resolve] is called
    with the loaded tree from before the run, which is as it was. *)
Theorem partial_run_keeps_loaded_tree this files middle that effects l tree :
  loadedSuite this = Some l → heap this !! l = Some tree →
  Forall streaming middle →
  run fsPath parseTestResult toString this
    (RunSomeTests files :: middle ++ [Close])
    = (that, effects) →
  loadedSuite that = Some l
  ∧ heap that !! l = Some tree
  ∧ loadingSuite that = Some (fresh (dom (heap this)))
  ∧ fresh (dom (heap this)) ≠ l
  ∧ last effects = Some (Resolve (mkFinished "finished" (Some l))).
Proof.
  intros Hloaded Hheap Hs Hrun.
  set (l' := fresh (dom (heap this))).
  assert (l ≠ l') as Hne.
  { intros ->. apply (is_fresh (dom (heap this))). by apply elem_of_dom. }
  rewrite run_cons, run_app in Hrun.
  change (step fsPath parseTestResult toString this (RunSomeTests files))
    with (runSomeTests this files) in Hrun.
  destruct (run fsPath parseTestResult toString (runSomeTests this files).1
              middle) as [this1 e1] eqn:Hmiddle.
  cbn [fst snd run step] in Hrun. simplify_eq.
  assert (loadedSuite (runSomeTests this files).1 = Some l
          ∧ loadingSuite (runSomeTests this files).1 = Some l'
          ∧ heap (runSomeTests this files).1 !! l = Some tree) as Hstart.
  { split_and!; [done.. |]. simpl. fold l'. by rewrite lookup_insert_ne. }
  destruct (run_streaming_invariant
              (λ that, loadedSuite that = Some l ∧ loadingSuite that = Some l'
                       ∧ heap that !! l = Some tree)
              (λ this o this',
                 dispatch_keeps_loaded_tree this o this' l l' tree Hne)
              (λ this H, H)
              _ _ _ _ Hs Hstart Hmiddle) as (H1 & H2 & H3).
  unfold onClose. rewrite H1. simpl. rewrite H1.
  split_and!; [done.. | by intros -> |].
  by rewrite app_comm_cons, last_snoc.
Qed.

End Run.

(** *** Locating tests in their files *)

Section LineEventProperties.

Variable getTestInfosByFile : TestSuiteInfo → list (string * list TestNode).
Variable findOffsetForTest : option (list string) → string → option nat.
Variable openTextDocument : string → option string.
Variable positionAt : string → nat → nat.

Lemma reduce_sum_Some (counts : list nat) n :
  reduce_sum counts = Some n → counts ≠ [] ∧ n = sum_list counts.
Proof.
  destruct counts as [|c counts]; [done |]. simpl. intros [= <-].
  split; [done |]. revert c.
  induction counts as [|d counts IH]; intros c; simpl; [lia |].
  rewrite IH. lia.
Qed.

Lemma fired_lengths {E} (fired : list (option (list E))) counts :
  mapM (fmap (M:=option) length) fired = Some counts →
  length counts = length fired
  ∧ sum_list counts = length (concat (omap id fired))
  ∧ Forall is_Some fired.
Proof.
  intros Hm%mapM_Some. induction Hm as [|x c fired counts Hx _ IH].
  { by split_and!. }
  destruct IH as (IH1 & IH2 & IH3). destruct x as [events|]; [|done].
  simpl in Hx. simplify_eq. simpl. rewrite length_app.
  split_and!; [by f_equal | by rewrite IH2 | by constructor].
Qed.

(** X15. [fireLineEvents] rejects when the tree has no file with tests (the
    reduce of no counts) and when a document does not open; otherwise its
    value is the number of events it fired, over all files. *)
Theorem fireLineEvents_value this suite :
  ((fireLineEvents getTestInfosByFile findOffsetForTest openTextDocument
      positionAt this suite).2 = None
   ↔ getTestInfosByFile suite = []
     ∨ Exists (λ entry, openTextDocument entry.1 = None)
              (getTestInfosByFile suite))
  ∧ (∀ count,
       (fireLineEvents getTestInfosByFile findOffsetForTest openTextDocument
          positionAt this suite).2 = Some count →
       count
       = length (concat (omap id
           (fireLineEvents getTestInfosByFile findOffsetForTest
              openTextDocument positionAt this suite).1))).
Proof.
  unfold fireLineEvents. simpl.
  set (g := λ entry : string * list TestNode,
              text ← openTextDocument entry.1;
              Some (lineEvents findOffsetForTest positionAt this text
                      entry.2)).
  generalize (getTestInfosByFile suite). intros entries.
  assert (Exists (λ x, length <$> x = None) (map g entries)
          ↔ Exists (λ entry, openTextDocument entry.1 = None) entries)
    as Hex.
  { induction entries as [|e entries IH]; simpl.
    - split; intros H; inversion H.
    - rewrite !Exists_cons, IH. unfold g at 1.
      destruct (openTextDocument e.1); simpl; [|tauto].
      split; (intros [?|?]; [done | by right]). }
  split.
  - split.
    + intros Hv.
      destruct (mapM (fmap length) (map g entries)) as [counts|] eqn:Hm;
        simpl in Hv.
      * destruct (fired_lengths _ _ Hm) as (Hlen & _ & Hall).
        left. destruct counts; [|done].
        destruct entries; [done | by simpl in Hlen].
      * right. by apply Hex, mapM_None.
    + intros [-> |Hnone]; [done |].
      apply Hex, mapM_None in Hnone. by rewrite Hnone.
  - intros count Hc.
    destruct (mapM (fmap length) (map g entries)) as [counts|] eqn:Hm;
      [|done].
    simpl in Hc. apply reduce_sum_Some in Hc as [_ ->].
    by destruct (fired_lengths _ _ Hm) as (_ & -> & _).
Qed.


End LineEventProperties.

End Properties.

(** ** Instances *)



Lemma node_ids_are_label_paths_witness :
  ∃ tree tree' id label file,
    insert_all "/ws" root_suite [completed "pass" ["M"; "a"]] = Some tree
    ∧ addResult "/ws" tree (completed "todo" ["M"; "s"; "b"])
      = Some (tree', id)
    ∧ tree_ids_ok tree = true ∧ tree_ids_ok tree' = true
    ∧ id = path_id (labels (completed "todo" ["M"; "s"; "b"]))
    ∧ last (labels (completed "todo" ["M"; "s"; "b"])) = Some label
    ∧ tests_of (node_of_suite tree')
        ≡ₚ tests_of (node_of_suite tree)
           ++ [Test id label (Some label) (Some file)
                 (String.eqb (status (completed "todo" ["M"; "s"; "b"]))
                             "todo")].
Proof.
  apply (node_ids_are_label_paths "/ws" [completed "pass" ["M"; "a"]]
           (completed "todo" ["M"; "s"; "b"])).
  - repeat constructor. discriminate.
  - discriminate.
Defined.

(** The claim C1 as stated fails: a full run indexed the result of the test
    [a] of module [M]; after the start of the next full run the result is
    still in the index. *)
Lemma full_run_keeps_index_counterexample :
  resultById indexed_runner !! "root/M/a" = Some (completed "pass" ["M"; "a"])
  ∧ resultById (runAllTests indexed_runner).1 !! "root/M/a"
    = Some (completed "pass" ["M"; "a"])
  ∧ resultById
      (run "/ws" sample_parse sample_toString new_runner two_full_runs).1
      !! "root/M/a"
    = Some (completed "pass" ["M"; "a"]).
Proof. split_and!; vm_compute; reflexivity. Qed.

Lemma result_index_survives_run_start_witness :
  resultById (runAllTests indexed_runner).1 = resultById indexed_runner
  ∧ resultById (runSomeTests indexed_runner ["tests/M.elm"]).1
    = resultById indexed_runner
  ∧ (∀ started,
       started = (runAllTests indexed_runner).1
       ∨ started = (runSomeTests indexed_runner ["tests/M.elm"]).1 →
       ∃ this',
         dispatch_all "/ws" started [OutResult (completed "fail" ["M"; "b"])]
           = Some this'
         ∧ ∀ id r,
             resultById indexed_runner !! id = Some r →
             (∀ r', OutResult r' ∈ [OutResult (completed "fail" ["M"; "b"])] →
                event r' = "testCompleted" → id ≠ path_id (labels r')) →
             resultById this' !! id = Some r).
Proof.
  apply (result_index_survives_run_start "/ws" indexed_runner ["tests/M.elm"]
           [OutResult (completed "fail" ["M"; "b"])]).
  constructor; [intros _; discriminate | constructor].
Defined.

Lemma pending_messages_attach_to_next_result_witness :
  ∃ this0 this1 id1 result,
    dispatch_all "/ws" (runAllTests new_runner).1
      ([OutLine "compiling"] ++ [OutResult (completed "pass" ["M"; "a"])])
      = Some this0
    ∧ pendingMessages this0 = []
    ∧ dispatch_all "/ws" this0
        ([OutLine "log 1"; OutLine ""; OutNull; OutLine "log 2"]
         ++ [OutResult (mkResult "testCompleted" "fail" ["M"; "b"] []
                          ["stale"])]) = Some this1
    ∧ dispatch_all "/ws" (runAllTests new_runner).1
        ([OutLine "compiling"] ++ [OutResult (completed "pass" ["M"; "a"])]
         ++ [OutLine "log 1"; OutLine ""; OutNull; OutLine "log 2"]
         ++ [OutResult (mkResult "testCompleted" "fail" ["M"; "b"] []
                          ["stale"])]) = Some this1
    ∧ pendingMessages this1 = []
    ∧ resultById this1 !! id1 = Some result
    ∧ result = mkResult "testCompleted" "fail" ["M"; "b"] []
                 ["log 1"; "log 2"]
    ∧ messages result = ["log 1"; "log 2"]
    ∧ event result = "testCompleted" ∧ status result = "fail"
    ∧ labels result = ["M"; "b"] ∧ failures result = []
    ∧ (∀ id, id ≠ id1 → resultById this1 !! id = resultById this0 !! id).
Proof.
  apply (pending_messages_attach_to_next_result "/ws"
           (runAllTests new_runner).1 [OutLine "compiling"]
           (completed "pass" ["M"; "a"])
           [OutLine "log 1"; OutLine ""; OutNull; OutLine "log 2"]
           (mkResult "testCompleted" "fail" ["M"; "b"] [] ["stale"])).
  - exists 0, root_suite. split; reflexivity.
  - constructor; [exact I | constructor].
  - reflexivity.
  - discriminate.
  - repeat constructor.
  - reflexivity.
  - discriminate.
Defined.

Lemma build_exit_code_contract_witness :
  (∃ reason, onDidEndTaskProcess true (Some 1%Z) = [Reject reason]
             ∧ contains reason "elm-test failed.")
  ∧ onDidEndTaskProcess true (Some 0%Z) = [RunElmTestWithReport]
  ∧ onDidEndTaskProcess true None = [RunElmTestWithReport].
Proof.
  split_and!.
  - apply (proj1 (build_exit_code_contract "/ws" (Some 1%Z))). reflexivity.
  - apply (proj1 (proj2 (build_exit_code_contract "/ws" (Some 0%Z)))).
    discriminate.
  - apply (proj1 (proj2 (build_exit_code_contract "/ws" None))).
    discriminate.
Defined.

Lemma close_promotes_loading_tree_witness :
  ∃ that effects l suite,
    run "/ws" sample_parse sample_toString new_runner
      (RunAllTests :: [EndTaskProcess true None; StdoutData "pass M a"])
      = (that, effects)
    ∧ loadedSuite that = None ∧ loadingSuite that = Some l
    ∧ heap that !! l = Some suite
    ∧ loadedSuite (onClose that).1 = Some l
    ∧ heap (onClose that).1 !! l = Some suite
    ∧ (onClose that).2 = [Resolve (mkFinished "finished" (Some l))].
Proof.
  destruct (run "/ws" sample_parse sample_toString new_runner
              (RunAllTests :: [EndTaskProcess true None;
                               StdoutData "pass M a"]))
    as [that effects] eqn:Hrun.
  destruct (proj2 (proj2 (close_promotes_loading_tree "/ws" sample_parse
                            sample_toString new_runner))
              [EndTaskProcess true None; StdoutData "pass M a"] that effects)
    as (l & suite & H).
  - repeat constructor.
  - exact Hrun.
  - exists that, effects, l, suite. split; [reflexivity | exact H].
Defined.

Lemma parseLine_total_witness :
  parseLine sample_decode "warning: unused import"
    = OutLine "warning: unused import"
  ∧ parseLine sample_decode "" = OutLine ""
  ∧ parseLine other_decode "{ }" = OutLine "{ }".
Proof.
  split_and!.
  - apply (proj1 (proj2 (parseLine_total sample_decode
                           "warning: unused import"))).
    reflexivity.
  - apply (proj1 (proj2 (parseLine_total sample_decode ""))). reflexivity.
  - apply (proj2 (proj2 (parseLine_total other_decode "{ }"))
             (JObject [("event", JString "testStarted")]) eq_refl).
    intros e He. injection He as <-.
    rewrite !elem_of_cons, elem_of_nil. intros [?|[?|[?|[]]]]; discriminate.
Defined.

Lemma empty_messages_are_discarded_witness :
  ∃ this effects,
    run "/ws" sample_parse sample_toString new_runner
      [RunAllTests; StdoutData ""; StdoutData "pass M a"; Close]
      = (this, effects)
    ∧ no_empty_message this
    ∧ (∀ that, dispatch "/ws" that (OutLine "") = Some that).
Proof.
  destruct (run "/ws" sample_parse sample_toString new_runner
              [RunAllTests; StdoutData ""; StdoutData "pass M a"; Close])
    as [this effects] eqn:Hrun.
  exists this, effects. split; [reflexivity |].
  exact (empty_messages_are_discarded "/ws" sample_parse sample_toString _
           this effects Hrun).
Defined.

(** ** Instances of the further properties *)

Lemma leaves_are_the_results_witness :
  is_Some (insert_all "/ws" root_suite
             [completed "pass" ["M"; "a"]; completed "fail" ["M"; "a"]])
  ∧ map node_id (tests_of (node_of_suite
        (mkSuite "root" "root" None None
           [Suite "root/M" "M" (Some "M") (Some "/ws/tests/M.elm")
              [Test "root/M/a" "a" (Some "a") (Some "/ws/tests/M.elm") false;
               Test "root/M/a" "a" (Some "a") (Some "/ws/tests/M.elm")
                 false]])))
    ≡ₚ map (λ r, path_id (labels r))
         [completed "pass" ["M"; "a"]; completed "fail" ["M"; "a"]].
Proof.
  split.
  - apply (proj1 (leaves_are_the_results "/ws"
                    [completed "pass" ["M"; "a"];
                     completed "fail" ["M"; "a"]])).
    repeat constructor; discriminate.
  - apply (proj2 (leaves_are_the_results "/ws"
                    [completed "pass" ["M"; "a"];
                     completed "fail" ["M"; "a"]])).
    reflexivity.
Defined.

Lemma addResult_keeps_leaf_order_witness :
  tests_of (node_of_suite indexed_tree)
    `sublist_of`
  tests_of (node_of_suite
    (mkSuite "root" "root" None None
       [Suite "root/M" "M" (Some "M") (Some "/ws/tests/M.elm")
          [Test "root/M/a" "a" (Some "a") (Some "/ws/tests/M.elm") false;
           Test "root/M/b" "b" (Some "b") (Some "/ws/tests/M.elm") true]])).
Proof.
  apply (addResult_keeps_leaf_order "/ws" (completed "todo" ["M"; "b"])
           indexed_tree _ "root/M/b").
  reflexivity.
Defined.

Lemma files_follow_module_label_witness :
  tree_files_ok "/ws" shadowed_tree = true.
Proof.
  apply (files_follow_module_label "/ws"
           [completed "pass" ["M"; "a"]; completed "pass" ["M"; "a"; "b"];
            completed "pass" ["M"; "a"; "c"]]).
  reflexivity.
Defined.

Lemma getFilePath_first_dot_witness :
  getFilePath "/ws" (completed "pass" ["A.B.C"; "t"])
    = Some ("/ws" +:+ "/tests/" +:+ ("A" +:+ "/" +:+ "B.C") +:+ ".elm")
  ∧ getFilePath "/ws" (completed "pass" ["A"; "t"])
    = Some ("/ws" +:+ "/tests/" +:+ "A" +:+ ".elm").
Proof.
  split.
  - apply (proj1 (getFilePath_first_dot "/ws" (completed "pass" ["A.B.C"; "t"])
                    "A" "B.C" ["t"] eq_refl)).
    reflexivity.
  - apply (proj2 (getFilePath_first_dot "/ws" (completed "pass" ["A"; "t"])
                    "A" "" ["t"] eq_refl)).
    reflexivity.
Defined.

Lemma accept_returns_iff_witness :
  is_Some (accept "/ws" (runAllTests new_runner).1
             (Some (completed "pass" ["M"; "a"])))
  ∧ ¬ is_Some (accept "/ws" new_runner (Some (completed "pass" ["M"; "a"])))
  ∧ ¬ is_Some (accept "/ws" (runAllTests new_runner).1
                 (Some (completed "pass" []))).
Proof.
  split_and!.
  - apply (accept_returns_iff "/ws" (runAllTests new_runner).1
             (completed "pass" ["M"; "a"]) eq_refl).
    split; [|discriminate]. exists 0, root_suite. split; reflexivity.
  - intros H.
    apply (accept_returns_iff "/ws" new_runner
             (completed "pass" ["M"; "a"]) eq_refl) in H
      as [(l & suite & Hl & _) _].
    discriminate Hl.
  - intros H.
    apply (accept_returns_iff "/ws" (runAllTests new_runner).1
             (completed "pass" []) eq_refl) in H as [_ Hr].
    by apply Hr.
Defined.

Lemma chunk_boundary_after_newline_witness :
  run "/ws" sample_parse sample_toString (runAllTests new_runner).1
    [StdoutData ("pass M a" +:+ newline); StdoutData "todo M b"]
  = run "/ws" sample_parse sample_toString (runAllTests new_runner).1
      [StdoutData ("pass M a" +:+ newline +:+ "todo M b")].
Proof.
  apply (chunk_boundary_after_newline "/ws" sample_parse sample_toString
           (runAllTests new_runner).1 "pass M a" "todo M b").
  - left. reflexivity.
  - reflexivity.
  - reflexivity.
  - vm_compute. eexists. reflexivity.
Defined.

Lemma index_keys_are_label_paths_witness :
  event (completed "pass" ["M"; "a"]) = "testCompleted"
  ∧ labels (completed "pass" ["M"; "a"]) ≠ []
  ∧ "root/M/a" = path_id (labels (completed "pass" ["M"; "a"])).
Proof.
  destruct (run "/ws" sample_parse sample_toString new_runner two_full_runs)
    as [this effects] eqn:Hrun.
  apply (index_keys_are_label_paths "/ws" sample_parse sample_toString
           two_full_runs this effects "root/M/a"
           (completed "pass" ["M"; "a"]) Hrun).
  vm_compute in Hrun. injection Hrun as <- _. vm_compute. reflexivity.
Defined.

Lemma tree_leaves_are_indexed_witness :
  ∃ this effects suite,
    run "/ws" sample_parse sample_toString new_runner
      [RunAllTests; StdoutData "pass M a"; Close] = (this, effects)
    ∧ heap this !! 0 = Some suite
    ∧ tree_ids_ok suite = true
    ∧ ∀ n, n ∈ tests_of (node_of_suite suite) →
        ∃ r, resultById this !! node_id n = Some r
             ∧ node_id n = path_id (labels r).
Proof.
  destruct (run "/ws" sample_parse sample_toString new_runner
              [RunAllTests; StdoutData "pass M a"; Close])
    as [this effects] eqn:Hrun.
  destruct (tree_leaves_are_indexed "/ws" sample_parse sample_toString
              [RunAllTests; StdoutData "pass M a"; Close] this effects 0 Hrun)
    as (suite & H).
  - left. vm_compute in Hrun. injection Hrun as <- _. reflexivity.
  - exists this, effects, suite. split; [reflexivity | exact H].
Defined.

Lemma partial_run_keeps_loaded_tree_witness :
  ∃ that effects,
    run "/ws" sample_parse sample_toString indexed_runner
      (RunSomeTests ["tests/M.elm"]
       :: [EndTaskProcess true (Some 0%Z); StdoutData "fail M a"] ++ [Close])
      = (that, effects)
    ∧ loadedSuite that = Some 0
    ∧ heap that !! 0 = Some indexed_tree
    ∧ loadingSuite that = Some (fresh (dom (heap indexed_runner)))
    ∧ fresh (dom (heap indexed_runner)) ≠ 0
    ∧ last effects = Some (Resolve (mkFinished "finished" (Some 0))).
Proof.
  destruct (run "/ws" sample_parse sample_toString indexed_runner
              (RunSomeTests ["tests/M.elm"]
               :: [EndTaskProcess true (Some 0%Z); StdoutData "fail M a"]
                  ++ [Close]))
    as [that effects] eqn:Hrun.
  exists that, effects. split; [reflexivity |].
  apply (partial_run_keeps_loaded_tree "/ws" sample_parse sample_toString
           indexed_runner
           ["tests/M.elm"]
           [EndTaskProcess true (Some 0%Z); StdoutData "fail M a"]
           that effects 0 indexed_tree).
  - reflexivity.
  - reflexivity.
  - repeat constructor.
  - exact Hrun.
Defined.

Lemma fireLineEvents_value_witness :
  (fireLineEvents sample_infos sample_offset sample_open sample_position
     indexed_runner root_suite).2 = None
  ∧ 1 = length (concat (omap id
          (fireLineEvents sample_infos sample_offset sample_open
             sample_position indexed_runner indexed_tree).1)).
Proof.
  split.
  - apply (proj2 (proj1 (fireLineEvents_value sample_infos sample_offset
                           sample_open sample_position indexed_runner
                           root_suite))).
    left. reflexivity.
  - apply (proj2 (fireLineEvents_value sample_infos sample_offset sample_open
                    sample_position indexed_runner indexed_tree) 1).
    reflexivity.
Defined.

Lemma first_result_gets_messages_since_start_witness :
  ∃ this1 result,
    dispatch_all "/ws"
      (runSomeTests (with_pending indexed_runner ["left over"])
                    ["tests/M.elm"]).1
      ([OutLine "log"; OutLine ""]
       ++ [OutResult (mkResult "testCompleted" "fail" ["M"; "a"] []
                        ["stale"])])
      = Some this1
    ∧ pendingMessages this1 = []
    ∧ resultById this1 !! "root/M/a" = Some result
    ∧ messages result = ["log"]
    ∧ event result = "testCompleted" ∧ status result = "fail"
    ∧ labels result = ["M"; "a"] ∧ failures result = []
    ∧ (∀ id, id ≠ "root/M/a" →
         resultById this1 !! id
         = resultById (with_pending indexed_runner ["left over"]) !! id).
Proof.
  apply (first_result_gets_messages_since_start "/ws"
           (with_pending indexed_runner ["left over"]) ["tests/M.elm"]
           [OutLine "log"; OutLine ""]
           (mkResult "testCompleted" "fail" ["M"; "a"] [] ["stale"])).
  - repeat constructor.
  - reflexivity.
  - discriminate.
  - right. reflexivity.
Defined.

Lemma throw_skips_rest_of_chunk_witness :
  onStdoutData "/ws" sample_parse sample_toString new_runner
    ("log" +:+ newline +:+ "pass M a" +:+ newline +:+ "pass M b")
    = (with_pending (with_pending new_runner ["log"]) [], [UncaughtTypeError])
  ∧ run "/ws" sample_parse sample_toString new_runner
      (StdoutData ("log" +:+ newline +:+ "pass M a" +:+ newline +:+ "pass M b")
       :: [RunAllTests])
    = ((run "/ws" sample_parse sample_toString
          (with_pending (with_pending new_runner ["log"]) [])
          [RunAllTests]).1,
       UncaughtTypeError
       :: (run "/ws" sample_parse sample_toString
             (with_pending (with_pending new_runner ["log"]) [])
             [RunAllTests]).2).
Proof.
  apply (throw_skips_rest_of_chunk "/ws" sample_parse sample_toString
           new_runner
           ("log" +:+ newline +:+ "pass M a" +:+ newline +:+ "pass M b")
           ["log"] "pass M a" ["pass M b"]
           (with_pending new_runner ["log"]) (completed "pass" ["M"; "a"])
           [RunAllTests]).
  - reflexivity.
  - reflexivity.
  - reflexivity.
  - reflexivity.
  - right. intros (l & suite & Hl & _). discriminate Hl.
Defined.
